(** * mini-shell: the command-tree executor of [cmd.c]

    A shallow embedding of [shell_cd], [shell_exit], [parse_simple],
    [run_in_parallel], [run_on_pipe] and [parse_command], followed by the
    properties of the executor that the specification states.

    The C code talks to the operating system through system calls.  The
    embedding follows ONE process: every call is answered by a [kernel], an
    arbitrary transition system over a state type, so a theorem that
    quantifies over the kernel holds for every behaviour of the operating
    system and for every process that runs the code, the parent of a [fork]
    (the call answers a positive pid) as well as its child (the call
    answers 0).  Every call is also appended, with its answer, to a log;
    the statements about what the executor does to files, processes and the
    working directory are statements about that log and about the kernel
    state.

    A computation ends in one of four ways ([outcome]): it returns to its
    caller, the process leaves through [exit], its image is replaced by
    [execvp], or the behaviour is undefined (the [strcat] calls of
    [shell_cd] past the end of their buffer).  Memory is not modelled:
    [free] is left out and allocation does not fail.

    Layout: system constants and the C library, the kernel and the monad of
    calls, the command tree, the functions of [cmd.c] in the order of the
    file, a concrete kernel for the examples, then the properties. *)

From Stdlib Require Import ZArith List String Ascii Bool Lia.
Import ListNotations.

Set Warnings "-register-all".

Open Scope string_scope.
Open Scope list_scope.
Open Scope Z_scope.

(** ** Constants of the system headers *)

Definition STDIN_FILENO : Z := 0.
Definition STDOUT_FILENO : Z := 1.
Definition STDERR_FILENO : Z := 2.

(** [fcntl.h] of Linux. *)
Definition O_RDONLY : Z := 0.
Definition O_WRONLY : Z := 1.
Definition O_CREAT : Z := 64.
Definition O_TRUNC : Z := 512.
Definition O_APPEND : Z := 1024.

(** The literal [0644]. *)
Definition MODE_0644 : Z := 420.

Definition TRUNC_FLAGS : Z := Z.lor O_WRONLY (Z.lor O_CREAT O_TRUNC).
Definition APPEND_FLAGS : Z := Z.lor O_WRONLY (Z.lor O_CREAT O_APPEND).

(** [sys/wait.h] of Linux: the low seven bits of a wait status hold the
    terminating signal, bits 8..15 the exit code. *)
Definition WIFEXITED (status : Z) : bool := Z.land status 127 =? 0.
Definition WEXITSTATUS (status : Z) : Z := Z.land (Z.shiftr status 8) 255.

(** The wait status the kernel reports for a child that called
    [exit code]. *)
Definition exit_wait_status (code : Z) : Z := Z.shiftl (Z.land code 255) 8.

(** ** The environment of a process ([environ]) *)

Definition env_t : Type := list (string * string).

Fixpoint getenv (name : string) (e : env_t) : option string :=
  match e with
  | [] => None
  | (n, v) :: e' => if String.eqb n name then Some v else getenv name e'
  end.

Fixpoint env_set (name value : string) (e : env_t) : env_t :=
  match e with
  | [] => [(name, value)]
  | (n, v) :: e' =>
      if String.eqb n name then (n, value) :: e'
      else (n, v) :: env_set name value e'
  end.

(** ** [string.h] *)

(** [strchr s c]: the suffix of [s] that starts at the first [c], [None]
    for the null pointer. *)
Fixpoint strchr (s : string) (c : ascii) : option string :=
  match s with
  | EmptyString => None
  | String a s' => if Ascii.eqb a c then Some s else strchr s' c
  end.

(** [strspn s {c}]: [s] without its leading run of [c]. *)
Fixpoint skip_delim (c : ascii) (s : string) : string :=
  match s with
  | EmptyString => EmptyString
  | String a s' => if Ascii.eqb a c then skip_delim c s' else s
  end.

(** The token that ends at the first [c] (or at the end of [s]), and the
    pointer [strtok] saves: behind the delimiter it overwrote, or at the
    terminating zero. *)
Fixpoint split_delim (c : ascii) (s : string) : string * string :=
  match s with
  | EmptyString => (EmptyString, EmptyString)
  | String a s' =>
      if Ascii.eqb a c then (EmptyString, s')
      else let '(tok, rest) := split_delim c s' in (String a tok, rest)
  end.

(** [strtok] with a one-character delimiter set.  The hidden static pointer
    of the C function is passed explicitly: the result is the token ([None]
    for the null pointer) and the saved pointer for the next call. *)
Definition strtok (c : ascii) (s : string) : option string * string :=
  match skip_delim c s with
  | EmptyString => (None, EmptyString)
  | s1 => let '(tok, rest) := split_delim c s1 in (Some tok, rest)
  end.

Definition EQUALS : ascii := "="%char.

(** [setenv name value overwrite] of the C library: [EINVAL] for an empty
    name or a name that holds an equals sign, otherwise the binding is set.
    Memory exhaustion is not modelled. *)
Definition setenv (name value : string) (overwrite : Z) (e : env_t)
  : Z * env_t :=
  match name, strchr name EQUALS with
  | EmptyString, _ => (-1, e)
  | _, Some _ => (-1, e)
  | _, None =>
      match getenv name e with
      | Some _ => if overwrite =? 0 then (0, e) else (0, env_set name value e)
      | None => (0, env_set name value e)
      end
  end.

(** ** System calls and their log *)

Inductive event : Type :=
| EvChdir (path : string) (r : Z)
| EvGetcwd (res : option string)
| EvOpen (path : string) (flags : Z) (mode : option Z) (fd : Z)
| EvClose (fd : Z)
| EvDup2 (oldfd newfd : Z) (r : Z)
| EvPipe (res : option (Z * Z))
| EvFork (pid : Z)
| EvWaitpid (pid options : Z) (status : option Z)
| EvExecvp (file : string) (argv : list string) (replaced : bool)
| EvExit (status : Z)
| EvPrintf (msg : string).

(** The operating system as one process sees it.  A call that fails
    ([None]) leaves the state as it was.  [k_fork] answers what [fork]
    returns in the process that is followed. *)
Record kernel (S : Type) : Type := Kernel {
  k_chdir : string -> S -> option S;
  k_getcwd : Z -> S -> option string;
  k_open : string -> Z -> option Z -> S -> option (Z * S);
  k_close : Z -> S -> S;
  k_dup2 : Z -> Z -> S -> option S;
  k_pipe : S -> option (Z * Z * S);
  k_fork : S -> Z * S;
  k_waitpid : Z -> Z -> S -> option (Z * S);
  k_execvp : string -> list string -> S -> bool
}.

Arguments k_chdir {S}.
Arguments k_getcwd {S}.
Arguments k_open {S}.
Arguments k_close {S}.
Arguments k_dup2 {S}.
Arguments k_pipe {S}.
Arguments k_fork {S}.
Arguments k_waitpid {S}.
Arguments k_execvp {S}.

(** ** What a process does with a piece of code

    It returns to its caller, leaves through [exit], has its image replaced
    by [execvp], or runs into undefined behaviour. *)
Inductive outcome (A : Type) : Type :=
| Returned (a : A)
| Exited (status : Z)
| Replaced (file : string) (argv : list string)
| Undefined.

Arguments Returned {A}.
Arguments Exited {A}.
Arguments Replaced {A}.
Arguments Undefined {A}.

Record world (S : Type) : Type := World {
  w_env : env_t;
  w_os : S;
  w_log : list event
}.

Arguments World {S}.
Arguments w_env {S}.
Arguments w_os {S}.
Arguments w_log {S}.

Definition M (S A : Type) : Type := world S -> outcome A * world S.

Definition ret {S A : Type} (a : A) : M S A := fun w => (Returned a, w).

Definition bind {S A B : Type} (m : M S A) (f : A -> M S B) : M S B :=
  fun w =>
    match m w with
    | (Returned a, w') => f a w'
    | (Exited n, w') => (Exited n, w')
    | (Replaced p a, w') => (Replaced p a, w')
    | (Undefined, w') => (Undefined, w')
    end.

Declare Scope shell_scope.
Delimit Scope shell_scope with shell.

Notation "x <- c1 ;; c2" := (bind c1 (fun x => c2))
  (at level 100, c1 at next level, right associativity) : shell_scope.
Notation "c1 ;; c2" := (bind c1 (fun _ => c2))
  (at level 100, right associativity) : shell_scope.

Open Scope shell_scope.

Definition emit {S : Type} (e : event) (w : world S) : world S :=
  World (w_env w) (w_os w) (w_log w ++ [e]).

Definition step {S : Type} (s : S) (e : event) (w : world S) : world S :=
  World (w_env w) s (w_log w ++ [e]).

(** ** The command tree ([parser.h])

    The header is not among the sources; the fields are those [cmd.c]
    reads.  [in] is a keyword, the field is [in_] here.  A pointer that may
    be null is an [option]. *)

(** The six operators [parse_command] knows; [OP_OTHER tag] is a field
    that holds any other value. *)
Inductive operator_t : Type :=
| OP_NONE
| OP_SEQUENTIAL
| OP_PARALLEL
| OP_CONDITIONAL_ZERO
| OP_CONDITIONAL_NZERO
| OP_PIPE
| OP_OTHER (tag : Z).

Record simple_command_t (word_t : Type) : Type := SimpleCommand {
  verb : word_t;
  params : option word_t;
  in_ : option word_t;
  out : option word_t;
  err : option word_t;
  io_flags : Z
}.

Arguments SimpleCommand {word_t}.
Arguments verb {word_t}.
Arguments params {word_t}.
Arguments in_ {word_t}.
Arguments out {word_t}.
Arguments err {word_t}.
Arguments io_flags {word_t}.

Inductive command_t (word_t : Type) : Type :=
| Command (op : operator_t) (scmd : option (simple_command_t word_t))
    (cmd1 cmd2 : option (command_t word_t)).

Arguments Command {word_t}.

(** ** Messages *)

Definition LF : string := String (ascii_of_nat 10) EmptyString.
Definition MSG_OPEN : string := String.append "Open error" LF.
Definition MSG_DUP2 : string := String.append "dup2 error" LF.
Definition MSG_WAITPID : string := String.append "waitpid error" LF.
Definition MSG_FORK : string := String.append "fork" LF.
Definition MSG_FORK_BRANCH : string := "Probles with fork".
Definition MSG_PIPE : string := "Pipe error".
Definition MSG_CHDIR : string := String.append "Error changing directory." LF.
Definition MSG_GETCWD : string :=
  String.append "Error getting current directory." LF.
Definition MSG_ABNORMAL : string :=
  String.append "Child process did not terminate normally" LF.
Definition MSG_EXEC (word : string) : string :=
  String.append "Execution failed for '"
    (String.append word (String.append "'" LF)).

Section Calls.

Variable S : Type.
Variable K : kernel S.

Definition chdir (path : string) : M S Z := fun w =>
  match k_chdir K path (w_os w) with
  | Some s => (Returned 0, step s (EvChdir path 0) w)
  | None => (Returned (-1), emit (EvChdir path (-1)) w)
  end.

Definition getcwd (size : Z) : M S (option string) := fun w =>
  let r := k_getcwd K size (w_os w) in (Returned r, emit (EvGetcwd r) w).

Definition open (path : string) (flags : Z) (mode : option Z) : M S Z :=
  fun w =>
    match k_open K path flags mode (w_os w) with
    | Some (fd, s) => (Returned fd, step s (EvOpen path flags mode fd) w)
    | None => (Returned (-1), emit (EvOpen path flags mode (-1)) w)
    end.

Definition close (fd : Z) : M S unit := fun w =>
  (Returned tt, step (k_close K fd (w_os w)) (EvClose fd) w).

Definition dup2 (oldfd newfd : Z) : M S Z := fun w =>
  match k_dup2 K oldfd newfd (w_os w) with
  | Some s => (Returned newfd, step s (EvDup2 oldfd newfd newfd) w)
  | None => (Returned (-1), emit (EvDup2 oldfd newfd (-1)) w)
  end.

Definition pipe : M S (Z * (Z * Z)) := fun w =>
  match k_pipe K (w_os w) with
  | Some (rd, wr, s) =>
      (Returned (0, (rd, wr)), step s (EvPipe (Some (rd, wr))) w)
  | None => (Returned (-1, (0, 0)), emit (EvPipe None) w)
  end.

Definition fork : M S Z := fun w =>
  let '(pid, s) := k_fork K (w_os w) in (Returned pid, step s (EvFork pid) w).

(** [waitpid pid &status options]: [None] stands for a negative result. *)
Definition waitpid (pid options : Z) : M S (option Z) := fun w =>
  match k_waitpid K pid options (w_os w) with
  | Some (status, s) =>
      (Returned (Some status), step s (EvWaitpid pid options (Some status)) w)
  | None => (Returned None, emit (EvWaitpid pid options None) w)
  end.

(** [execvp] returns, with -1, only when it fails. *)
Definition execvp (file : string) (argv : list string) : M S Z := fun w =>
  if k_execvp K file argv (w_os w)
  then (Replaced file argv, emit (EvExecvp file argv true) w)
  else (Returned (-1), emit (EvExecvp file argv false) w).

Definition exit {A : Type} (status : Z) : M S A := fun w =>
  (Exited status, emit (EvExit status) w).

Definition printf (msg : string) : M S unit := fun w =>
  (Returned tt, emit (EvPrintf msg) w).

Definition undefined {A : Type} : M S A := fun w => (Undefined, w).

Definition read_env : M S env_t := fun w => (Returned (w_env w), w).

Definition c_setenv (name value : string) (overwrite : Z) : M S Z := fun w =>
  let '(r, e) := setenv name value overwrite (w_env w) in
  (Returned r, World e (w_os w) (w_log w)).

End Calls.

Arguments chdir {S} K path w.
Arguments getcwd {S} K size w.
Arguments open {S} K path flags mode w.
Arguments close {S} K fd w.
Arguments dup2 {S} K oldfd newfd w.
Arguments pipe {S} K w.
Arguments fork {S} K w.
Arguments waitpid {S} K pid options w.
Arguments execvp {S} K file argv w.
Arguments exit {S A} status w.
Arguments printf {S} msg w.
Arguments undefined {S A} w.
Arguments read_env {S} w.
Arguments c_setenv {S} name value overwrite w.

(** ** What [cmd.c] runs on

    The kernel, the token resolver of [utils.c] and the constant of
    [cmd.h]; neither file is among the sources.  The token resolver reads
    the environment (it expands variables), so it takes the environment of
    the process; [SHELL_EXIT] is the status reserved for exit and quit. *)
Class platform : Type := Platform {
  kstate : Type;
  word_t : Type;
  kern : kernel kstate;
  resolve_word : word_t -> env_t -> string;
  resolve_argv : simple_command_t word_t -> env_t -> list string;
  SHELL_EXIT : Z
}.

Section Shell.

Context `{P : platform}.

Definition get_word (w : word_t) : M kstate string :=
  e <- read_env ;; ret (resolve_word w e).

(** [get_word] of a null pointer is the null pointer. *)
Definition get_word_opt (w : option word_t) : M kstate (option string) :=
  match w with
  | None => ret None
  | Some w' => s <- get_word w' ;; ret (Some s)
  end.

Definition get_argv (s : simple_command_t word_t)
  : M kstate (list string) :=
  e <- read_env ;; ret (resolve_argv s e).

(** [strcmp a b == 0] for a pointer [a] that may be null; the code reaches
    it with a null [a] only behind a false [fdout >= 0]. *)
Definition strcmp_eq (a : option string) (b : string) : bool :=
  match a with
  | Some a' => String.eqb a' b
  | None => false
  end.

(** ** [shell_cd]

    [path] is a buffer of 1024 bytes: the two [strcat] calls stay inside it
    when the directory, the slash, the word and the terminating zero fit. *)
Definition shell_cd (dir : option word_t) : M kstate bool :=
  match dir with
  | None => ret true
  | Some d =>
      word <- get_word d ;;
      r <- chdir kern word ;;
      if r <? 0 then
        got <- getcwd kern 1024 ;;
        match got with
        | Some path =>
            if Z.of_nat (String.length path) + 1
               + Z.of_nat (String.length word) + 1 <=? 1024
            then
              r' <- chdir kern
                      (String.append path (String.append "/" word)) ;;
              if r' <? 0 then printf MSG_CHDIR ;; ret false
              else ret true
            else undefined
        | None => printf MSG_GETCWD ;; ret false
        end
      else ret true
  end.

(** ** [shell_exit] *)
Definition shell_exit : M kstate Z := ret SHELL_EXIT.

(** ** [parse_simple] *)

(** One of the three blocks of the cd branch (lines 84-118): the declared
    target is opened for writing, created and truncated, then closed; [k]
    is the rest of the function. *)
Definition cd_redirect (target : option word_t) (k : M kstate Z)
  : M kstate Z :=
  match target with
  | None => k
  | Some t =>
      file <- get_word t ;;
      fd <- open kern file TRUNC_FLAGS (Some MODE_0644) ;;
      if fd <? 0 then printf MSG_OPEN ;; ret 1
      else close kern fd ;; k
  end.

(** The child, lines 159-179. *)
Definition child_in (s : simple_command_t word_t) (k : M kstate Z)
  : M kstate Z :=
  match in_ s with
  | None => k
  | Some i =>
      input <- get_word i ;;
      fdin <- open kern input O_RDONLY None ;;
      if fdin <? 0 then printf MSG_OPEN ;; ret 1
      else
        r <- dup2 kern fdin STDIN_FILENO ;;
        if r <? 0 then close kern fdin ;; printf MSG_DUP2 ;; ret 1
        else k
  end.

(** The flags of both write targets (lines 184-187 and 214-217). *)
Definition write_flags (s : simple_command_t word_t) : Z :=
  if io_flags s >? 0 then APPEND_FLAGS else TRUNC_FLAGS.

(** The child, lines 181-205; [k] receives [fdout]. *)
Definition child_out (s : simple_command_t word_t) (k : Z -> M kstate Z)
  : M kstate Z :=
  match out s with
  | None => k (-1)
  | Some o =>
      output <- get_word o ;;
      fdout <- open kern output (write_flags s) (Some MODE_0644) ;;
      if fdout <? 0 then printf MSG_OPEN ;; ret 1
      else
        r <- dup2 kern fdout STDOUT_FILENO ;;
        if r <? 0 then close kern fdout ;; printf MSG_DUP2 ;; ret 1
        else k fdout
  end.

(** Lines 229-237. *)
Definition wire_err (fderr : Z) (k : M kstate Z) : M kstate Z :=
  r <- dup2 kern fderr STDERR_FILENO ;;
  if r <? 0 then close kern fderr ;; printf MSG_DUP2 ;; ret 1
  else k.

(** The child, lines 207-241. *)
Definition child_err (s : simple_command_t word_t) (fdout : Z)
  (k : M kstate Z) : M kstate Z :=
  match err s with
  | None => k
  | Some e =>
      error <- get_word e ;;
      output <- get_word_opt (out s) ;;
      if (fdout >=? 0) && strcmp_eq output error then wire_err fdout k
      else
        fderr <- open kern error (write_flags s) (Some MODE_0644) ;;
        if fderr <? 0 then printf MSG_OPEN ;; ret 1
        else wire_err fderr k
  end.

(** The child, lines 243-253. *)
Definition child_exec (s : simple_command_t word_t) (word : string)
  : M kstate Z :=
  argv <- get_argv s ;;
  r <- execvp kern word argv ;;
  if r <? 0 then printf (MSG_EXEC word) ;; exit r
  else ret r.

(** The parent, lines 258-270. *)
Definition wait_child (pid : Z) : M kstate Z :=
  st <- waitpid kern pid 0 ;;
  match st with
  | None => printf MSG_WAITPID ;; ret 1
  | Some status =>
      if WIFEXITED status then ret (WEXITSTATUS status)
      else printf MSG_ABNORMAL ;; ret 1
  end.

Definition parse_simple (s : option (simple_command_t word_t))
  : M kstate Z :=
  match s with
  | None => ret 1
  | Some s =>
      word <- get_word (verb s) ;;
      if String.eqb word "cd" then
        cd_redirect (in_ s) (cd_redirect (out s) (cd_redirect (err s)
          (b <- shell_cd (params s) ;; if b then ret 0 else ret 1)))
      else if String.eqb word "exit" || String.eqb word "quit" then
        shell_exit
      else
        match strchr word EQUALS with
        | Some _ =>
            let '(var, save) := strtok EQUALS word in
            let '(val, _) := strtok EQUALS save in
            match var, val with
            | Some var', Some val' => r <- c_setenv var' val' 1 ;; ret r
            | _, _ => ret 1
            end
        | None =>
            pid <- fork kern ;;
            if pid <? 0 then printf MSG_FORK ;; ret 1
            else if pid =? 0 then
              child_in s (child_out s (fun fdout =>
                child_err s fdout (child_exec s word)))
            else wait_child pid
        end
  end.

(** ** [run_in_parallel]

    [eval1] and [eval2] are [parse_command cmd1] and [parse_command cmd2];
    they run in the child only. *)
Definition run_in_parallel (eval1 eval2 : M kstate Z) : M kstate bool :=
  pid_left <- fork kern ;;
  if pid_left <? 0 then printf MSG_FORK_BRANCH ;; ret false
  else if pid_left =? 0 then status <- eval1 ;; exit status
  else
    pid_right <- fork kern ;;
    if pid_right <? 0 then printf MSG_FORK_BRANCH ;; ret false
    else if pid_right =? 0 then status <- eval2 ;; exit status
    else
      st1 <- waitpid kern pid_left 0 ;;
      match st1 with
      | None => printf MSG_WAITPID ;; ret false
      | Some _ =>
          st2 <- waitpid kern pid_right 0 ;;
          match st2 with
          | None => printf MSG_WAITPID ;; ret false
          | Some _ => ret true
          end
      end.

(** ** [run_on_pipe] *)
Definition run_on_pipe (eval1 eval2 : M kstate Z) : M kstate bool :=
  p <- pipe kern ;;
  let '(r, (fd_read, fd_write)) := p in
  if r <? 0 then printf MSG_PIPE ;; ret false
  else
    pid_left <- fork kern ;;
    if pid_left <? 0 then printf MSG_FORK_BRANCH ;; ret false
    else if pid_left =? 0 then
      close kern fd_read ;;
      d <- dup2 kern fd_write STDOUT_FILENO ;;
      if d <? 0 then close kern fd_write ;; printf MSG_DUP2 ;; ret false
      else r1 <- eval1 ;; exit r1
    else
      pid_right <- fork kern ;;
      if pid_right <? 0 then printf MSG_FORK_BRANCH ;; ret false
      else if pid_right =? 0 then
        close kern fd_write ;;
        d <- dup2 kern fd_read STDIN_FILENO ;;
        if d <? 0 then close kern fd_read ;; printf MSG_DUP2 ;; ret false
        else r2 <- eval2 ;; exit r2
      else
        close kern fd_read ;;
        close kern fd_write ;;
        st1 <- waitpid kern pid_left 0 ;;
        match st1 with
        | None => printf MSG_WAITPID ;; ret false
        | Some _ =>
            st2 <- waitpid kern pid_right 0 ;;
            match st2 with
            | None => printf MSG_WAITPID ;; ret false
            | Some status =>
                if negb (status =? 0) then ret false else ret true
            end
        end.

(** ** [parse_command]

    [parse_node] is the function behind its null check; the parameters
    [level] and [father] are passed along and never read, they are left
    out. *)
Fixpoint parse_node (c : command_t word_t) : M kstate Z :=
  match c with
  | Command op scmd cmd1 cmd2 =>
      let left :=
        match cmd1 with
        | None => ret SHELL_EXIT
        | Some c1 => parse_node c1
        end in
      let right :=
        match cmd2 with
        | None => ret SHELL_EXIT
        | Some c2 => parse_node c2
        end in
      match op with
      | OP_NONE => parse_simple scmd
      | OP_SEQUENTIAL => left ;; right
      | OP_PARALLEL =>
          b <- run_in_parallel left right ;;
          if negb b then ret 1 else ret 0
      | OP_CONDITIONAL_NZERO =>
          r <- left ;; if negb (r =? 0) then right else ret r
      | OP_CONDITIONAL_ZERO =>
          r <- left ;; if r =? 0 then right else ret r
      | OP_PIPE =>
          b <- run_on_pipe left right ;;
          if negb b then ret 1 else ret 0
      | OP_OTHER _ => ret SHELL_EXIT
      end
  end.

Definition parse_command (c : option (command_t word_t)) : M kstate Z :=
  match c with
  | None => ret SHELL_EXIT
  | Some n => parse_node n
  end.

End Shell.

(** ** A small concrete kernel

    Words are plain strings that resolve to themselves and the sentinel is
    -100; the kernel answers from tables.  It serves the examples: the
    theorems below hold for every kernel. *)
Module Toy.

Record state : Type := State {
  t_cwd : option string;
  t_dirs : list string;
  t_locked : list string;
  t_next_fd : Z;
  t_bad_fds : list Z;
  t_forks : list Z;
  t_waits : list (Z * Z);
  t_programs : list string
}.

Definition mem_string (x : string) (l : list string) : bool :=
  existsb (String.eqb x) l.

Definition mem_Z (x : Z) (l : list Z) : bool := existsb (Z.eqb x) l.

Fixpoint lookup_wait (pid : Z) (l : list (Z * Z)) : option Z :=
  match l with
  | [] => None
  | (p, st) :: l' => if p =? pid then Some st else lookup_wait pid l'
  end.

Definition toy_chdir (path : string) (s : state) : option state :=
  if mem_string path (t_dirs s)
  then Some (State (Some path) (t_dirs s) (t_locked s) (t_next_fd s)
               (t_bad_fds s) (t_forks s) (t_waits s) (t_programs s))
  else None.

Definition toy_open (path : string) (flags : Z) (mode : option Z)
  (s : state) : option (Z * state) :=
  if mem_string path (t_locked s) then None
  else Some (t_next_fd s,
             State (t_cwd s) (t_dirs s) (t_locked s) (t_next_fd s + 1)
               (t_bad_fds s) (t_forks s) (t_waits s) (t_programs s)).

Definition toy_dup2 (oldfd newfd : Z) (s : state) : option state :=
  if mem_Z oldfd (t_bad_fds s) then None else Some s.

Definition toy_pipe (s : state) : option (Z * Z * state) :=
  Some (t_next_fd s, t_next_fd s + 1,
        State (t_cwd s) (t_dirs s) (t_locked s) (t_next_fd s + 2)
          (t_bad_fds s) (t_forks s) (t_waits s) (t_programs s)).

Definition toy_fork (s : state) : Z * state :=
  match t_forks s with
  | [] => (-1, s)
  | pid :: rest =>
      (pid, State (t_cwd s) (t_dirs s) (t_locked s) (t_next_fd s)
              (t_bad_fds s) rest (t_waits s) (t_programs s))
  end.

Definition toy_waitpid (pid options : Z) (s : state) : option (Z * state) :=
  match lookup_wait pid (t_waits s) with
  | Some st => Some (st, s)
  | None => None
  end.

Definition K : kernel state :=
  Kernel state toy_chdir (fun _ s => t_cwd s) toy_open (fun _ s => s)
    toy_dup2 toy_pipe toy_fork toy_waitpid
    (fun file _ s => mem_string file (t_programs s)).

Definition resolve_word (w : string) (e : env_t) : string := w.

Definition resolve_argv (s : simple_command_t string) (e : env_t)
  : list string :=
  verb s :: match params s with Some p => [p] | None => [] end.

Definition SHELL_EXIT : Z := -100.

Definition host : platform :=
  Platform state string K resolve_word resolve_argv SHELL_EXIT.

Definition parse_command (c : option (command_t string)) : M state Z :=
  parse_command (P := host) c.

(** A machine whose [getcwd] answers [cwd], whose [chdir] accepts [/tmp]
    only, where [/locked] cannot be opened and the next free descriptor is
    3; [forks] are the answers of the successive forks, [waits] the wait
    status of each child. *)
Definition machine (cwd : option string) (forks : list Z)
  (waits : list (Z * Z)) : world state :=
  World [] (State cwd ["/tmp"] ["/locked"] 3 [] forks waits
              ["true"; "false"; "echo"]) [].

Definition boot (forks : list Z) (waits : list (Z * Z)) : world state :=
  machine (Some "/home") forks waits.

Definition simple (v : string) (p i o e : option string) (flags : Z)
  : option (command_t string) :=
  Some (Command OP_NONE (Some (SimpleCommand v p i o e flags)) None None).

Definition plain (v : string) : option (command_t string) :=
  simple v None None None None 0.

Definition node (op : operator_t) (l r : option (command_t string))
  : option (command_t string) :=
  Some (Command op None l r).

End Toy.

(** ** Notions the statements use *)

(** Modelled from the spec: [parser.h], which declares the bits of
    [io_flags], is not among the sources.  The specification gives stdout
    and stderr one append flag each; they are the bits [IO_OUT_APPEND] and
    [IO_ERR_APPEND] of the field, and [IO_REGULAR] is no bit at all. *)
Definition IO_REGULAR : Z := 0.
Definition IO_OUT_APPEND : Z := 1.
Definition IO_ERR_APPEND : Z := 2.

Definition out_append (flags : Z) : bool :=
  negb (Z.land flags IO_OUT_APPEND =? 0).

Definition err_append (flags : Z) : bool :=
  negb (Z.land flags IO_ERR_APPEND =? 0).

(** The directory, a slash, the word and the terminating zero fit the
    buffer [path] of [shell_cd]. *)
Definition fits (path word : string) : Prop :=
  Z.of_nat (String.length path) + 1 + Z.of_nat (String.length word) + 1
  <= 1024.


(** The name and the value of an assignment word as the specification reads
    it: the text before the first equals sign and the text behind it. *)
Definition assign_name (word : string) : string :=
  fst (split_delim EQUALS word).

Definition assign_value (word : string) : string :=
  snd (split_delim EQUALS word).

(** What a command declares and what a log shows. *)
Definition opt_list {A : Type} (o : option A) : list A :=
  match o with Some x => [x] | None => [] end.

Definition declared_targets `{P : platform} (s : simple_command_t word_t)
  (e : env_t) : list string :=
  map (fun t => resolve_word t e)
    (opt_list (in_ s) ++ opt_list (out s) ++ opt_list (err s)).

Definition opens (l : list event) : list (string * Z * option Z) :=
  flat_map (fun e => match e with
                     | EvOpen p f m _ => [(p, f, m)]
                     | _ => []
                     end) l.

Definition failed_open (e : event) : bool :=
  match e with EvOpen _ _ _ fd => fd <? 0 | _ => false end.

Definition is_chdir (e : event) : bool :=
  match e with EvChdir _ _ => true | _ => false end.

Definition is_write_open (p : string) (e : event) : bool :=
  match e with
  | EvOpen q flags _ _ => Z.testbit flags 0 && String.eqb q p
  | _ => false
  end.

(** ** Notions of the further properties *)

(** A verb that is neither a built-in nor an assignment: [parse_simple]
    runs it as an external command. *)
Definition is_external (word : string) : bool :=
  negb (String.eqb word "cd") && negb (String.eqb word "exit")
  && negb (String.eqb word "quit")
  && match strchr word EQUALS with Some _ => false | None => true end.

(** The pieces of [s] between the occurrences of [c]: the piece that starts
    at the head of [s], and those behind it. *)
Fixpoint pieces (c : ascii) (s : string) : string * list string :=
  match s with
  | EmptyString => (EmptyString, [])
  | String a s' =>
      let '(p, ps) := pieces c s' in
      if Ascii.eqb a c then (EmptyString, p :: ps) else (String a p, ps)
  end.

Definition nonempty (s : string) : bool :=
  match s with EmptyString => false | _ => true end.

(** The fields of [s]: its non-empty pieces.  [pieces] and [fields] are
    notions of the statements; the code splits with [strtok]. *)
Definition fields (c : ascii) (s : string) : list string :=
  let '(p, ps) := pieces c s in filter nonempty (p :: ps).

Definition failed_dup2 (e : event) : bool :=
  match e with EvDup2 _ _ r => r <? 0 | _ => false end.

Definition failed_fork (e : event) : bool :=
  match e with EvFork pid => pid <? 0 | _ => false end.

Definition is_close (e : event) : bool :=
  match e with EvClose _ => true | _ => false end.

Definition is_waitpid (e : event) : bool :=
  match e with EvWaitpid _ _ _ => true | _ => false end.

(** The descriptors a log shows opened, and those it shows closed. *)
Definition opened_fds (l : list event) : list Z :=
  flat_map (fun e => match e with
                     | EvOpen _ _ _ fd => if fd <? 0 then [] else [fd]
                     | _ => []
                     end) l.

Definition closed_fds (l : list event) : list Z :=
  flat_map (fun e => match e with EvClose fd => [fd] | _ => [] end) l.

Definition starts_process (e : event) : bool :=
  match e with
  | EvFork _ | EvExecvp _ _ _ | EvExit _ | EvPipe _ => true
  | _ => false
  end.

(** The process is gone: it called [exit] or a successful [execvp]. *)
Definition leaves {A : Type} (res : outcome A) : bool :=
  match res with
  | Exited _ | Replaced _ _ => true
  | _ => false
  end.

(** A fork that answered 0: from here on the log is that of the child. *)
Definition is_child_fork (e : event) : bool :=
  match e with EvFork pid => pid =? 0 | _ => false end.

Definition rewires (e : event) : bool :=
  match e with EvDup2 _ _ _ => true | _ => false end.

(** The log only grows. *)
Definition grows {S A : Type} (m : M S A) : Prop :=
  forall w res w', m w = (res, w') -> exists delta, w_log w' = w_log w ++ delta.

(** A computation that can only return (or be undefined). *)
Definition returns {S A : Type} (m : M S A) : Prop :=
  forall w res w', m w = (res, w') -> leaves res = false.

(** The process leaves only as the child of a fork. *)
Definition stays {S A : Type} (m : M S A) : Prop :=
  forall w res w', m w = (res, w') -> leaves res = true ->
    existsb is_child_fork (w_log w') = true.

(** Descriptors are rewired in a child only. *)
Definition wires_in_child {S A : Type} (m : M S A) : Prop :=
  forall w res w', m w = (res, w') ->
    exists delta,
      w_log w' = w_log w ++ delta /\
      (existsb is_child_fork (w_log w') = false ->
       existsb rewires delta = false).

(** Induction on a command tree, through the optional operands. *)
Definition opt_holds {A : Type} (Q : A -> Prop) (o : option A) : Prop :=
  match o with Some a => Q a | None => True end.

Fixpoint command_t_rect' (W : Type) (Q : command_t W -> Prop)
  (H : forall op sc c1 c2, opt_holds Q c1 -> opt_holds Q c2 ->
                           Q (Command op sc c1 c2))
  (c : command_t W) : Q c :=
  match c with
  | Command op sc c1 c2 =>
      H op sc c1 c2
        (match c1 as o return opt_holds Q o with
         | Some c' => command_t_rect' W Q H c'
         | None => I
         end)
        (match c2 as o return opt_holds Q o with
         | Some c' => command_t_rect' W Q H c'
         | None => I
         end)
  end.

(** * Properties *)

(** Case analysis along the calls of an unfolded computation. *)
Ltac break_in H :=
  repeat match type of H with
  | context [match ?x with _ => _ end] =>
      lazymatch x with
      | context [match _ with _ => _ end] => fail
      | _ => destruct x eqn:?
      end
  end.

Ltac log_inv H :=
  repeat rewrite <- app_assoc in H; simpl in H;
  apply app_inv_head in H; inversion H; subst; clear H.

Ltac log_refl := repeat rewrite <- app_assoc; simpl; reflexivity.

Ltac zify_bools :=
  repeat match goal with
  | H : (_ >=? _) = _ |- _ => rewrite Z.geb_leb in H
  | H : (_ >? _) = _ |- _ => rewrite Z.gtb_ltb in H
  | H : negb _ = true |- _ => apply negb_true_iff in H
  | H : negb _ = false |- _ => apply negb_false_iff in H
  | H : (_ <? _) = true |- _ => apply Z.ltb_lt in H
  | H : (_ <? _) = false |- _ => apply Z.ltb_ge in H
  | H : (_ =? _) = true |- _ => apply Z.eqb_eq in H
  | H : (_ =? _) = false |- _ => apply Z.eqb_neq in H
  | H : (_ <=? _) = true |- _ => apply Z.leb_le in H
  | H : (_ <=? _) = false |- _ => apply Z.leb_gt in H
  end.

Ltac use_bools :=
  repeat match goal with
  | H : (_ <? _) = _ |- _ => rewrite H
  end.

Ltac run_calls_in H :=
  cbv beta iota zeta delta
    [bind ret chdir getcwd open close dup2 pipe fork waitpid execvp printf
     exit undefined read_env c_setenv step emit w_env w_os w_log
     get_word get_word_opt get_argv] in H.

Ltac split_bools :=
  repeat match goal with
  | H : _ && _ = true |- _ => apply andb_true_iff in H; destruct H
  | H : _ && _ = false |- _ => apply andb_false_iff in H; destruct H
  | H : String.eqb _ _ = true |- _ => apply String.eqb_eq in H
  | H : String.eqb _ _ = false |- _ => apply String.eqb_neq in H
  end.

Ltac in_list :=
  solve [cbn [In]; repeat (first [left; reflexivity | right])].

Ltac in_cases :=
  repeat match goal with
  | H : In _ (_ :: _) |- _ => destruct H as [H|H]
  | H : In _ [] |- _ => destruct H
  | H : EvDup2 _ _ _ = EvDup2 _ _ _ |- _ => inversion H; subst; clear H
  | H : _ = EvDup2 _ _ _ |- _ => discriminate H
  end.

Ltac unfold_calls :=
  unfold bind, chdir, getcwd, open, close, dup2, pipe, fork, waitpid,
    execvp, printf, ret, exit, undefined, read_env, c_setenv, step, emit.

Section Properties.

Context `{P : platform}.

(** The unfolding of [parse_command] at each operator. *)
Lemma eval_sequential sc l r :
  parse_command (Some (Command OP_SEQUENTIAL sc l r))
  = (parse_command l ;; parse_command r).
Proof. destruct l, r; reflexivity. Qed.

Lemma eval_conditional_zero sc l r :
  parse_command (Some (Command OP_CONDITIONAL_ZERO sc l r))
  = (x <- parse_command l ;; if x =? 0 then parse_command r else ret x).
Proof. destruct l, r; reflexivity. Qed.

Lemma eval_conditional_nzero sc l r :
  parse_command (Some (Command OP_CONDITIONAL_NZERO sc l r))
  = (x <- parse_command l ;;
     if negb (x =? 0) then parse_command r else ret x).
Proof. destruct l, r; reflexivity. Qed.

Lemma eval_parallel sc l r :
  parse_command (Some (Command OP_PARALLEL sc l r))
  = (b <- run_in_parallel (parse_command l) (parse_command r) ;;
     if negb b then ret 1 else ret 0).
Proof. destruct l, r; reflexivity. Qed.

Lemma eval_pipe sc l r :
  parse_command (Some (Command OP_PIPE sc l r))
  = (b <- run_on_pipe (parse_command l) (parse_command r) ;;
     if negb b then ret 1 else ret 0).
Proof. destruct l, r; reflexivity. Qed.

Lemma eval_simple sc l r :
  parse_command (Some (Command OP_NONE sc l r)) = parse_simple sc.
Proof. reflexivity. Qed.

(** C9: [parse_command] on a null node, and on a node whose operator is none
    of the six known ones, returns [SHELL_EXIT] (and calls nothing). *)
Theorem parse_command_null_or_unknown :
  (forall w, parse_command None w = (Returned SHELL_EXIT, w)) /\
  (forall tag sc l r w,
      parse_command (Some (Command (OP_OTHER tag) sc l r)) w
      = (Returned SHELL_EXIT, w)).
Proof. split; reflexivity. Qed.

(** C2 (amended): a Sequential, ConditionalIfZero or ConditionalIfNonZero
    node returns what the last operand it evaluates returns.  Once the left
    operand has returned [x], a Sequential node continues as its right
    operand, whatever [x] is; a ConditionalIfZero node does so when [x] is
    0 and a ConditionalIfNonZero node when [x] is not 0; otherwise the node
    returns [x].  So the sentinel of the right operand is returned
    unchanged whenever that operand is evaluated, and the sentinel of the
    left operand is returned unchanged by a ConditionalIfZero node only. *)
Theorem sentinel_of_last_operand sc l r w x w1 :
  SHELL_EXIT <> 0 ->
  parse_command l w = (Returned x, w1) ->
  parse_command (Some (Command OP_SEQUENTIAL sc l r)) w = parse_command r w1 /\
  (x = 0 ->
   parse_command (Some (Command OP_CONDITIONAL_ZERO sc l r)) w
   = parse_command r w1 /\
   parse_command (Some (Command OP_CONDITIONAL_NZERO sc l r)) w
   = (Returned x, w1)) /\
  (x <> 0 ->
   parse_command (Some (Command OP_CONDITIONAL_NZERO sc l r)) w
   = parse_command r w1 /\
   parse_command (Some (Command OP_CONDITIONAL_ZERO sc l r)) w
   = (Returned x, w1)) /\
  (x = SHELL_EXIT ->
   parse_command (Some (Command OP_CONDITIONAL_ZERO sc l r)) w
   = (Returned SHELL_EXIT, w1)).
Proof.
  intros Hne Hl.
  rewrite eval_sequential, eval_conditional_zero, eval_conditional_nzero.
  unfold bind. rewrite Hl.
  split; [reflexivity|]. split; [|split].
  - intros ->. split; reflexivity.
  - intros Hx. apply Z.eqb_neq in Hx. rewrite Hx. split; reflexivity.
  - intros ->. apply Z.eqb_neq in Hne. rewrite Hne. reflexivity.
Qed.

(** What [run_in_parallel] returns in the process that called it. *)
Lemma run_in_parallel_returns (e1 e2 : M kstate Z) w b w' :
  run_in_parallel e1 e2 w = (Returned b, w') ->
  (b = true <->
   exists pl pr stl str, 0 < pl /\ 0 < pr /\
     w_log w' = w_log w ++ [EvFork pl; EvFork pr; EvWaitpid pl 0 (Some stl);
                            EvWaitpid pr 0 (Some str)]) /\
  (fst (k_fork kern (w_os w)) < 0 ->
   b = false /\
   w_log w' = w_log w ++ [EvFork (fst (k_fork kern (w_os w)));
                          EvPrintf MSG_FORK_BRANCH]).
Proof.
  unfold run_in_parallel. unfold_calls.
  intros H. break_in H.
  all: try discriminate H.
  all: inversion H; subst; clear H; simpl; zify_bools.
  all: split;
    [ split;
      [ intros Hb; try discriminate Hb
      | intros (pl & pr & stl & str & Hpl & Hpr & Hlog);
        try (log_inv Hlog; lia) ]
    | intros Hneg; try lia ].
  all: try (split; [reflexivity|log_refl]).
  all: do 4 eexists; split; [|split]; [| |log_refl]; lia.
Qed.

(** C4: in the process that evaluates a Parallel node the status is 0 or 1;
    it is 0 exactly when both forks answered a child pid and both blocking
    waits succeeded, whatever wait statuses [stl] and [str] the two
    children ended with; when the first fork fails nothing else is
    called, so the second branch is not started. *)
Theorem parallel_status sc l r w x w' :
  parse_command (Some (Command OP_PARALLEL sc l r)) w = (Returned x, w') ->
  (x = 0 \/ x = 1) /\
  (x = 0 <->
   exists pl pr stl str, 0 < pl /\ 0 < pr /\
     w_log w' = w_log w ++ [EvFork pl; EvFork pr; EvWaitpid pl 0 (Some stl);
                            EvWaitpid pr 0 (Some str)]) /\
  (fst (k_fork kern (w_os w)) < 0 ->
   x = 1 /\
   w_log w' = w_log w ++ [EvFork (fst (k_fork kern (w_os w)));
                          EvPrintf MSG_FORK_BRANCH]).
Proof.
  rewrite eval_parallel. unfold bind at 1.
  destruct (run_in_parallel (parse_command l) (parse_command r) w)
    as [[b| | |] w1] eqn:E;
    try discriminate.
  destruct (run_in_parallel_returns _ _ _ _ _ E) as [Hiff Hfail].
  destruct b; simpl; unfold ret; intros H; inversion H; subst; clear H.
  - split; [left; reflexivity|]. split.
    + split; [intros _; apply Hiff; reflexivity|reflexivity].
    + intros Hneg. destruct (Hfail Hneg) as [Hb _]. discriminate Hb.
  - split; [right; reflexivity|]. split.
    + split; [discriminate|]. intros Hex. apply Hiff in Hex. discriminate Hex.
    + intros Hneg. split; [reflexivity|]. apply Hfail, Hneg.
Qed.

(** What [run_on_pipe] returns in the process that called it. *)
Lemma run_on_pipe_returns (e1 e2 : M kstate Z) w b w' :
  run_on_pipe e1 e2 w = (Returned b, w') ->
  (b = true <->
   exists rd wr pl pr stl, 0 < pl /\ 0 < pr /\
     w_log w' = w_log w ++ [EvPipe (Some (rd, wr)); EvFork pl; EvFork pr;
                            EvClose rd; EvClose wr;
                            EvWaitpid pl 0 (Some stl);
                            EvWaitpid pr 0 (Some 0)]).
Proof.
  unfold run_on_pipe. unfold_calls.
  intros H. break_in H.
  all: try discriminate H.
  all: inversion H; subst; clear H; simpl; zify_bools; try lia; subst.
  all: split;
    [ intros Hb; try discriminate Hb
    | intros (rd & wr & pl & pr & stl & Hpl & Hpr & Hlog);
      try (log_inv Hlog; lia) ].
  all: do 5 eexists; split; [|split]; [| |log_refl]; lia.
Qed.

(** C1 (amended): in the process that evaluates a Pipe node the status is 0
    or 1; it is 0 exactly when the pipe was created, both forks answered a
    child pid, both ends were closed, both blocking waits succeeded and the
    wait status of the RIGHT branch is 0.  The wait status [stl] of the
    left branch is not looked at. *)
Theorem pipe_status sc l r w x w' :
  parse_command (Some (Command OP_PIPE sc l r)) w = (Returned x, w') ->
  (x = 0 \/ x = 1) /\
  (x = 0 <->
   exists rd wr pl pr stl, 0 < pl /\ 0 < pr /\
     w_log w' = w_log w ++ [EvPipe (Some (rd, wr)); EvFork pl; EvFork pr;
                            EvClose rd; EvClose wr;
                            EvWaitpid pl 0 (Some stl);
                            EvWaitpid pr 0 (Some 0)]).
Proof.
  rewrite eval_pipe. unfold bind at 1.
  destruct (run_on_pipe (parse_command l) (parse_command r) w)
    as [[b| | |] w1] eqn:E;
    try discriminate.
  pose proof (run_on_pipe_returns _ _ _ _ _ E) as Hiff.
  destruct b; simpl; unfold ret; intros H; inversion H; subst; clear H.
  - split; [left; reflexivity|].
    split; [intros _; apply Hiff; reflexivity|reflexivity].
  - split; [right; reflexivity|].
    split; [discriminate|]. intros Hex. apply Hiff in Hex. discriminate Hex.
Qed.


Lemma parse_simple_cd s w :
  resolve_word (verb s) (w_env w) = "cd" ->
  parse_simple (Some s) w
  = cd_redirect (in_ s)
      (cd_redirect (out s)
         (cd_redirect (err s)
            (b <- shell_cd (params s) ;;
             if b then ret 0 else ret 1))) w.
Proof.
  intros Hv. unfold parse_simple, get_word, read_env.
  unfold bind at 1 2. unfold ret at 1. rewrite Hv. reflexivity.
Qed.



Lemma split_delim_none c v :
  strchr v c = None -> split_delim c v = (v, EmptyString) /\ skip_delim c v = v.
Proof.
  induction v as [|a v IH]; simpl; [intros _; split; reflexivity|].
  destruct (Ascii.eqb a c); [discriminate|]. intros H.
  destruct (IH H) as [-> _]. split; reflexivity.
Qed.

Lemma strtok_skip c w : strtok c (String c w) = strtok c w.
Proof.
  unfold strtok. cbn [skip_delim]. rewrite Ascii.eqb_refl. reflexivity.
Qed.

Lemma strtok_plain c v :
  strchr v c = None ->
  strtok c v
  = (match v with EmptyString => None | _ => Some v end, EmptyString).
Proof.
  intros H. destruct (split_delim_none _ _ H) as [Hs Hk].
  unfold strtok. rewrite Hk. destruct v; [reflexivity|].
  cbv beta iota. rewrite Hs. reflexivity.
Qed.

Lemma strtok_head c a w :
  Ascii.eqb a c = false ->
  strtok c (String a w)
  = (Some (fst (split_delim c (String a w))), snd (split_delim c (String a w))).
Proof.
  intros H. unfold strtok. cbn [skip_delim]. rewrite H. cbv beta iota.
  destruct (split_delim c (String a w)). reflexivity.
Qed.

Lemma assignment_not_builtin word :
  strchr word EQUALS <> None ->
  String.eqb word "cd" = false /\ String.eqb word "exit" = false /\
  String.eqb word "quit" = false.
Proof.
  intros H. repeat split.
  all: match goal with |- String.eqb ?a ?b = false =>
         destruct (String.eqb_spec a b) as [->|]; [|reflexivity] end.
  all: exfalso; apply H; reflexivity.
Qed.

(** C8: a cd command opens its declared targets in the order stdin,
    stdout, stderr, each one (the stdin target too) for writing with
    creation and truncation and mode 0644: the opens of the log are an
    initial part of that list, and all of it when no open failed.  When an
    open failed the status is 1 and the log holds no [chdir]. *)
Theorem cd_redirections s l r w res w' :
  resolve_word (verb s) (w_env w) = "cd" ->
  parse_command (Some (Command OP_NONE (Some s) l r)) w = (res, w') ->
  exists delta,
    w_log w' = w_log w ++ delta /\
    (exists rest,
        map (fun p => (p, TRUNC_FLAGS, Some MODE_0644))
          (declared_targets s (w_env w))
        = opens delta ++ rest /\
        (existsb failed_open delta = false -> rest = [])) /\
    (existsb failed_open delta = true ->
     res = Returned 1 /\ existsb is_chdir delta = false).
Proof.
  intros Hv. rewrite eval_simple, (parse_simple_cd _ _ Hv).
  unfold declared_targets. destruct s as [v p i o e fl].
  destruct w as [env os lg].
  cbn [in_ out err params w_env w_log].
  unfold cd_redirect, shell_cd.
  intros H. run_calls_in H. break_in H.
  all: inversion H; subst; clear H.
  all: cbn [w_log]; repeat rewrite <- app_assoc.
  all: eexists; split; [first [reflexivity | symmetry; apply app_nil_r]|].
  all: simpl; use_bools; simpl.
  all: split; [eexists; split; [reflexivity|] |].
  all: try (intros; reflexivity).
  all: try (intros; discriminate).
  all: try (intros; split; reflexivity).
Qed.

Lemma write_flags_bit (s : simple_command_t word_t) :
  Z.testbit (write_flags s) 0 = true.
Proof. unfold write_flags. destruct (io_flags s >? 0); reflexivity. Qed.

(** What the log of a command with a stdout and a stderr target shows,
    whatever the kernel answers.  Whenever stdout was wired to a descriptor
    [fd], that descriptor is the one the open of the stdout target
    returned; if both targets resolve to the same path, stderr is wired to
    the same [fd], and the log holds at most one open for writing of that
    path; if the paths differ, the stderr target is opened by a call of its
    own and, when that open succeeds, stderr is wired to the new
    descriptor. *)
Lemma stderr_alias_log s l r w res w' o e :
  out s = Some o -> err s = Some e ->
  String.eqb (resolve_word (verb s) (w_env w)) "cd" = false ->
  parse_command (Some (Command OP_NONE (Some s) l r)) w = (res, w') ->
  let po := resolve_word o (w_env w) in
  let pe := resolve_word e (w_env w) in
  exists delta,
    w_log w' = w_log w ++ delta /\
    (forall fd, In (EvDup2 fd STDOUT_FILENO STDOUT_FILENO) delta ->
       In (EvOpen po (write_flags s) (Some MODE_0644) fd) delta /\
       (po = pe ->
        exists r', In (EvDup2 fd STDERR_FILENO r') delta) /\
       (po <> pe ->
        exists fd', In (EvOpen pe (write_flags s) (Some MODE_0644) fd') delta /\
          (0 <= fd' -> exists r', In (EvDup2 fd' STDERR_FILENO r') delta))) /\
    (po = pe -> (List.length (filter (is_write_open po) delta) <= 1)%nat).
Proof.
  intros Ho He Hcd. rewrite eval_simple.
  pose proof (write_flags_bit s) as Hbit.
  unfold parse_simple, shell_exit, child_in, child_out, child_err, wire_err,
    child_exec, wait_child.
  rewrite Ho, He.
  generalize dependent (write_flags s). intros wf Hbit.
  destruct w as [env os lg]. cbn [w_env w_log] in *.
  intros H.
  cbv beta iota zeta delta
    [bind ret chdir getcwd open close dup2 pipe fork waitpid execvp printf
     exit undefined read_env c_setenv step emit w_env w_os w_log
     get_word get_word_opt get_argv strcmp_eq
     STDIN_FILENO STDOUT_FILENO STDERR_FILENO] in H.
  rewrite Hcd in H.
  destruct (String.eqb_spec (resolve_word o env) (resolve_word e env))
    as [Epath|Epath].
  all: break_in H.
  all: try discriminate.
  all: inversion H; subst; clear H.
  all: split_bools; zify_bools; try lia; try contradiction.
  all: cbn [w_log]; repeat rewrite <- app_assoc.
  all: eexists; split; [first [reflexivity | symmetry; apply app_nil_r]|].
  all: cbn [app].
  all: split; [intros fd Hin; in_cases|intros Heq; try contradiction].
  all: try (cbn [filter is_write_open];
                 change (Z.testbit O_RDONLY 0) with false;
                 rewrite ?Hbit, ?String.eqb_refl; cbn [andb List.length]; lia).
  all: split; [in_list|].
  all: split;
    [ intros Heq; first [contradiction | eexists; in_list]
    | intros Hne; first
        [ contradiction
        | eexists; split;
          [ in_list | intros Hpos; first [lia | eexists; in_list] ] ] ].
Qed.

Lemma parse_simple_external s w :
  is_external (resolve_word (verb s) (w_env w)) = true ->
  parse_simple (Some s) w
  = (pid <- fork kern ;;
     if pid <? 0 then printf MSG_FORK ;; ret 1
     else if pid =? 0 then
       child_in s (child_out s (fun fdout =>
         child_err s fdout
           (child_exec s (resolve_word (verb s) (w_env w)))))
     else wait_child pid) w.
Proof.
  unfold is_external. intros H.
  apply andb_true_iff in H. destruct H as [H H4].
  apply andb_true_iff in H. destruct H as [H H3].
  apply andb_true_iff in H. destruct H as [H1 H2].
  apply negb_true_iff in H1, H2, H3.
  unfold parse_simple, get_word, read_env. unfold bind at 1 2. unfold ret at 1.
  rewrite H1, H2, H3. cbn [orb].
  destruct (strchr (resolve_word (verb s) (w_env w)) EQUALS);
    [discriminate|reflexivity].
Qed.

(** C6: an external command that declares a stdout and a stderr target.
    If both resolve to the same path, no run holds more than one open for
    writing of that path.  In the child (the fork answered 0), once the
    stdin target, if any, is open and wired, and the kernel has opened the
    stdout target as [fd] and put it on descriptor 1: when the stderr
    target resolves to the same path, the next call is [dup2 fd 2], with no
    open before it, and between the fork and [execvp] the path was opened
    once; when the paths differ, the stderr target is opened by a call of
    its own and the descriptor [fd'] that call returned is put on
    descriptor 2. *)
Theorem stderr_alias s l r w o e :
  out s = Some o -> err s = Some e ->
  let word := resolve_word (verb s) (w_env w) in
  let po := resolve_word o (w_env w) in
  let pe := resolve_word e (w_env w) in
  is_external word = true ->
  (po = pe ->
   forall res w',
     parse_command (Some (Command OP_NONE (Some s) l r)) w = (res, w') ->
     exists delta,
       w_log w' = w_log w ++ delta /\
       (List.length (filter (is_write_open po) delta) <= 1)%nat) /\
  (forall s1 din s2 fd s3 s4,
     k_fork kern (w_os w) = (0, s1) ->
     (in_ s = None /\ din = [] /\ s2 = s1 \/
      exists i fdin sa,
        in_ s = Some i /\
        k_open kern (resolve_word i (w_env w)) O_RDONLY None s1
        = Some (fdin, sa) /\
        0 <= fdin /\
        k_dup2 kern fdin STDIN_FILENO sa = Some s2 /\
        din = [EvOpen (resolve_word i (w_env w)) O_RDONLY None fdin;
               EvDup2 fdin STDIN_FILENO STDIN_FILENO]) ->
     k_open kern po (write_flags s) (Some MODE_0644) s2 = Some (fd, s3) ->
     0 <= fd ->
     k_dup2 kern fd STDOUT_FILENO s3 = Some s4 ->
     (po = pe ->
      forall s5, k_dup2 kern fd STDERR_FILENO s4 = Some s5 ->
        parse_command (Some (Command OP_NONE (Some s) l r)) w
        = child_exec s word
            (World (w_env w) s5
               (w_log w ++ EvFork 0 :: din ++
                  [EvOpen po (write_flags s) (Some MODE_0644) fd;
                   EvDup2 fd STDOUT_FILENO STDOUT_FILENO;
                   EvDup2 fd STDERR_FILENO STDERR_FILENO]))) /\
     (po <> pe ->
      forall fd' s5 s6,
        k_open kern pe (write_flags s) (Some MODE_0644) s4
        = Some (fd', s5) ->
        0 <= fd' ->
        k_dup2 kern fd' STDERR_FILENO s5 = Some s6 ->
        parse_command (Some (Command OP_NONE (Some s) l r)) w
        = child_exec s word
            (World (w_env w) s6
               (w_log w ++ EvFork 0 :: din ++
                  [EvOpen po (write_flags s) (Some MODE_0644) fd;
                   EvDup2 fd STDOUT_FILENO STDOUT_FILENO;
                   EvOpen pe (write_flags s) (Some MODE_0644) fd';
                   EvDup2 fd' STDERR_FILENO STDERR_FILENO])))).
Proof.
  intros Ho He word po pe Hext. split.
  { intros Heq res w' Hrun.
    assert (Hcd : String.eqb word "cd" = false).
    { unfold is_external in Hext.
      destruct (String.eqb word "cd"); [discriminate Hext|reflexivity]. }
    destruct (stderr_alias_log s l r w res w' o e Ho He Hcd Hrun)
      as (delta & Hd & _ & Hone).
    exists delta. split; [exact Hd|apply Hone, Heq]. }
  intros s1 din s2 fd s3 s4 Hfork Hin Hopen Hfd Hdup.
  rewrite eval_simple, (parse_simple_external _ _ Hext). fold word.
  unfold child_in, child_out, child_err, wire_err. rewrite Ho, He.
  generalize (child_exec s word). intros k.
  generalize dependent (write_flags s). intros wf Hopen.
  assert (Hnn : forall x, 0 <= x -> (x <? 0) = false /\ (x >=? 0) = true).
  { intros x Hx. split; [apply Z.ltb_ge; exact Hx|].
    rewrite Z.geb_leb. apply Z.leb_le. exact Hx. }
  destruct (Hnn fd Hfd) as [Hlt Hge].
  destruct w as [env os lg]. subst word po pe. cbn [w_env w_os w_log] in *.
  assert (Hstdin :
    forall K : M kstate Z,
      (match in_ s with
       | None => K
       | Some i =>
           input <- get_word i ;;
           fdin <- open kern input O_RDONLY None ;;
           if fdin <? 0 then printf MSG_OPEN ;; ret 1
           else
             r0 <- dup2 kern fdin STDIN_FILENO ;;
             if r0 <? 0 then close kern fdin ;; printf MSG_DUP2 ;; ret 1
             else K
       end) (World env s1 (lg ++ [EvFork 0]))
      = K (World env s2 (lg ++ EvFork 0 :: din))).
  { intros K. destruct Hin as [(-> & -> & ->)|(i & fdin & sa & -> & Hoi & Hfi & Hdi & ->)].
    - reflexivity.
    - destruct (Hnn fdin Hfi) as [Hlti _].
      cbv beta iota zeta delta
        [bind ret open dup2 step emit w_env w_os w_log get_word read_env
         STDIN_FILENO].
      unfold STDIN_FILENO in Hdi. rewrite Hoi, Hlti, Hdi. change (0 <? 0) with false. cbv iota.
      repeat rewrite <- app_assoc. reflexivity. }
  unfold STDOUT_FILENO in Hdup.
  split; [intros Heq s5 Hd2|intros Hne fd' s5 s6 Ho2 Hfd' Hd2].
  all: unfold STDERR_FILENO in Hd2.
  all: unfold bind at 1; unfold fork at 1; cbn [w_os]; rewrite Hfork.
  all: change (0 <? 0) with false; change (0 =? 0) with true; cbv iota.
  all: unfold step at 1; cbn [w_env w_log]; rewrite Hstdin.
  all: cbv beta iota zeta delta
         [bind ret open dup2 step emit w_env w_os w_log get_word get_word_opt
          read_env strcmp_eq STDOUT_FILENO STDERR_FILENO].
  all: rewrite Hopen, Hlt, Hdup; change (1 <? 0) with false; cbv iota.
  all: rewrite Hge.
  - rewrite Heq, String.eqb_refl. cbn [andb]. rewrite Hd2.
    change (2 <? 0) with false. cbv iota.
    repeat rewrite <- app_assoc. reflexivity.
  - destruct (String.eqb_spec (resolve_word o env) (resolve_word e env))
      as [|_]; [contradiction|].
    cbn [andb]. destruct (Hnn fd' Hfd') as [Hlt' _].
    rewrite Ho2, Hlt', Hd2. change (2 <? 0) with false. cbv iota.
    repeat rewrite <- app_assoc. reflexivity.
Qed.

End Properties.

(** C2, as the specification words it, fails: the left operand [exit] of a Sequential
    node and of a ConditionalIfNonZero node returns the sentinel, the node
    returns the status 0 of its right operand [cd]. *)
Lemma sentinel_of_left_operand_lost :
  let w := Toy.boot [] [] in
  Toy.parse_command (Toy.plain "exit") w = (Returned Toy.SHELL_EXIT, w) /\
  Toy.parse_command
    (Toy.node OP_SEQUENTIAL (Toy.plain "exit") (Toy.plain "cd")) w
  = (Returned 0, w) /\
  Toy.parse_command
    (Toy.node OP_CONDITIONAL_NZERO (Toy.plain "exit") (Toy.plain "cd")) w
  = (Returned 0, w) /\
  Toy.SHELL_EXIT <> 0.
Proof. cbv zeta. repeat split. intro H; discriminate H. Qed.

(** An instance: [cd ; quit] returns the sentinel of [quit]. *)
Lemma sentinel_of_last_operand_witness :
  let w := Toy.boot [] [] in
  Toy.parse_command
    (Toy.node OP_SEQUENTIAL (Toy.plain "cd") (Toy.plain "quit")) w
  = (Returned Toy.SHELL_EXIT, w).
Proof.
  exact (proj1 (sentinel_of_last_operand (P := Toy.host) None (Toy.plain "cd")
                  (Toy.plain "quit") (Toy.boot [] []) 0 (Toy.boot [] [])
                  ltac:(intro H; discriminate H) eq_refl)).
Defined.

(** C1, as the specification words it, fails: the left branch of the pipeline
    [false | true] exits with status 1 (first line: the branch followed on
    its own), the pipe node returns 0 to the process that evaluates it. *)
Lemma pipe_ignores_left_status :
  let pipeline := Toy.node OP_PIPE (Toy.plain "false") (Toy.plain "true") in
  fst (Toy.parse_command pipeline (Toy.boot [0; 20] [(20, exit_wait_status 1)]))
  = Exited 1 /\
  let run :=
    Toy.parse_command pipeline
      (Toy.boot [10; 11] [(10, exit_wait_status 1); (11, exit_wait_status 0)])
  in
  fst run = Returned 0 /\
  w_log (snd run)
  = [EvPipe (Some (3, 4)); EvFork 10; EvFork 11; EvClose 3; EvClose 4;
     EvWaitpid 10 0 (Some (exit_wait_status 1)); EvWaitpid 11 0 (Some 0)] /\
  WIFEXITED (exit_wait_status 1) = true /\
  WEXITSTATUS (exit_wait_status 1) = 1.
Proof. cbv zeta. repeat split. Qed.

(** An instance: [true | true] with both branches created and joined. *)
Lemma pipe_status_witness :
  let pipeline := Toy.node OP_PIPE (Toy.plain "true") (Toy.plain "true") in
  let w := Toy.boot [10; 11] [(10, 0); (11, 0)] in
  exists rd wr pl pr stl, 0 < pl /\ 0 < pr /\
    w_log (snd (Toy.parse_command pipeline w))
    = w_log w ++ [EvPipe (Some (rd, wr)); EvFork pl; EvFork pr;
                  EvClose rd; EvClose wr; EvWaitpid pl 0 (Some stl);
                  EvWaitpid pr 0 (Some 0)].
Proof.
  exact (proj1 (proj2 (pipe_status (P := Toy.host) None (Toy.plain "true")
                         (Toy.plain "true")
                         (Toy.boot [10; 11] [(10, 0); (11, 0)]) 0
                         (snd (Toy.parse_command
                                 (Toy.node OP_PIPE (Toy.plain "true")
                                    (Toy.plain "true"))
                                 (Toy.boot [10; 11] [(10, 0); (11, 0)])))
                         eq_refl)) eq_refl).
Defined.

(** An instance: [false & true]; the left child ends with exit code 1 and
    the status is 0 all the same. *)
Lemma parallel_status_witness :
  let both := Toy.node OP_PARALLEL (Toy.plain "false") (Toy.plain "true") in
  let w := Toy.boot [10; 11] [(10, exit_wait_status 1); (11, 0)] in
  exists pl pr stl str, 0 < pl /\ 0 < pr /\
    w_log (snd (Toy.parse_command both w))
    = w_log w ++ [EvFork pl; EvFork pr; EvWaitpid pl 0 (Some stl);
                  EvWaitpid pr 0 (Some str)].
Proof.
  exact (proj1 (proj1 (proj2
           (parallel_status (P := Toy.host) None (Toy.plain "false")
              (Toy.plain "true")
              (Toy.boot [10; 11] [(10, exit_wait_status 1); (11, 0)]) 0
              (snd (Toy.parse_command
                      (Toy.node OP_PARALLEL (Toy.plain "false")
                         (Toy.plain "true"))
                      (Toy.boot [10; 11] [(10, exit_wait_status 1); (11, 0)])))
              eq_refl))) eq_refl).
Defined.

(** C3, the code at the failing input.  In the child ([fork] answers 0) of
    an external command whose stdin target cannot be opened,
    [parse_simple] returns 1 to its caller instead of leaving through
    [exit]; under a Sequential node that child goes on and evaluates the
    right operand.  Only the failure of [execvp] ends the child, with
    [exit (-1)]. *)
Theorem child_returns_after_open_failure :
  let cmd := Toy.simple "echo" None (Some "/locked") None None 0 in
  Toy.parse_command cmd (Toy.boot [0] [])
  = (Returned 1,
     World [] (w_os (Toy.boot [] []))
       [EvFork 0; EvOpen "/locked" O_RDONLY None (-1); EvPrintf MSG_OPEN]) /\
  (let run :=
     Toy.parse_command (Toy.node OP_SEQUENTIAL cmd (Toy.plain "true"))
       (Toy.boot [0; 30] [(30, 0)]) in
   fst run = Returned 0 /\
   w_log (snd run)
   = [EvFork 0; EvOpen "/locked" O_RDONLY None (-1); EvPrintf MSG_OPEN;
      EvFork 30; EvWaitpid 30 0 (Some 0)]) /\
  fst (Toy.parse_command (Toy.plain "nosuch") (Toy.boot [0] []))
  = Exited (-1).
Proof. cbv zeta. repeat split. Qed.

(** C5, the code at the failing input.  With the append flag of stderr
    alone ([io_flags = IO_ERR_APPEND], stdout's own flag not set) the
    stdout target is opened in append mode; with the append flag of stdout
    alone the stderr target is opened in append mode: both opens test
    [io_flags > 0]. *)
Theorem append_flag_is_shared :
  out_append IO_ERR_APPEND = false /\
  w_log (snd (Toy.parse_command
                (Toy.simple "echo" None None (Some "o.txt") (Some "e.txt")
                   IO_ERR_APPEND)
                (Toy.boot [0] [])))
  = [EvFork 0; EvOpen "o.txt" APPEND_FLAGS (Some MODE_0644) 3; EvDup2 3 1 1;
     EvOpen "e.txt" APPEND_FLAGS (Some MODE_0644) 4; EvDup2 4 2 2;
     EvExecvp "echo" ["echo"] true] /\
  err_append IO_OUT_APPEND = false /\
  w_log (snd (Toy.parse_command
                (Toy.simple "echo" None None (Some "o.txt") (Some "e.txt")
                   IO_OUT_APPEND)
                (Toy.boot [0] [])))
  = [EvFork 0; EvOpen "o.txt" APPEND_FLAGS (Some MODE_0644) 3; EvDup2 3 1 1;
     EvOpen "e.txt" APPEND_FLAGS (Some MODE_0644) 4; EvDup2 4 2 2;
     EvExecvp "echo" ["echo"] true].
Proof. repeat split. Qed.



(** C10, the code at the failing input.  The verb [=a=b] has an empty
    name; [strtok] skips the leading equals sign, so [a] is taken for the
    name and [b] for the value: the status is 0 and the environment binds
    [a] to [b].  The null checks on the two fields refuse the sibling
    inputs [=a], [=a=] and [==b], whose name is empty too: status 1,
    nothing touched. *)
Theorem assignment_with_empty_name_sets_env :
  let w := Toy.boot [] [] in
  assign_name "=a=b" = EmptyString /\
  assign_value "=a=b" = "a=b" /\
  Toy.parse_command (Toy.plain "=a=b") w
  = (Returned 0, World [("a", "b")] (w_os w) []) /\
  Toy.parse_command (Toy.plain "=a") w = (Returned 1, w) /\
  Toy.parse_command (Toy.plain "=a=") w = (Returned 1, w) /\
  Toy.parse_command (Toy.plain "==b") w = (Returned 1, w).
Proof. cbv zeta. repeat split. Qed.

(** An instance: [cd /tmp < a > /locked 2> c]; [a] is created, the open of
    [/locked] fails. *)
Lemma cd_redirections_witness :
  let s := SimpleCommand "cd" (Some "/tmp") (Some "a") (Some "/locked")
             (Some "c") 0 in
  let w := Toy.boot [] [] in
  let run := Toy.parse_command
               (Some (Command OP_NONE (Some s) None None)) w in
  exists delta,
    w_log (snd run) = w_log w ++ delta /\
    (exists rest,
        map (fun p => (p, TRUNC_FLAGS, Some MODE_0644))
          (declared_targets (P := Toy.host) s (w_env w))
        = opens delta ++ rest /\
        (existsb failed_open delta = false -> rest = [])) /\
    (existsb failed_open delta = true ->
     fst run = Returned 1 /\ existsb is_chdir delta = false).
Proof.
  exact (cd_redirections (P := Toy.host)
           (SimpleCommand "cd" (Some "/tmp") (Some "a") (Some "/locked")
              (Some "c") 0)
           None None (Toy.boot [] []) _ _ eq_refl eq_refl).
Defined.

(** The instances: the child of [echo > o.txt 2> o.txt], the child of
    [echo < in.txt > o.txt 2> e.txt], and the log of the first; [st n] is
    the kernel state in which the next free descriptor is [n]. *)
Lemma stderr_alias_witness :
  let same := SimpleCommand "echo" None None (Some "o.txt") (Some "o.txt") 0 in
  let differ := SimpleCommand "echo" None (Some "in.txt") (Some "o.txt")
                  (Some "e.txt") 0 in
  let st n := Toy.State (Some "/home") ["/tmp"] ["/locked"] n [] [] []
                ["true"; "false"; "echo"] in
  let w := Toy.boot [0] [] in
  Toy.parse_command (Some (Command OP_NONE (Some same) None None)) w
  = child_exec (P := Toy.host) same "echo"
      (World [] (st 4)
         [EvFork 0; EvOpen "o.txt" TRUNC_FLAGS (Some MODE_0644) 3;
          EvDup2 3 1 1; EvDup2 3 2 2]) /\
  Toy.parse_command (Some (Command OP_NONE (Some differ) None None)) w
  = child_exec (P := Toy.host) differ "echo"
      (World [] (st 6)
         [EvFork 0; EvOpen "in.txt" O_RDONLY None 3; EvDup2 3 0 0;
          EvOpen "o.txt" TRUNC_FLAGS (Some MODE_0644) 4; EvDup2 4 1 1;
          EvOpen "e.txt" TRUNC_FLAGS (Some MODE_0644) 5; EvDup2 5 2 2]) /\
  (exists delta,
      w_log (snd (Toy.parse_command
                    (Some (Command OP_NONE (Some same) None None)) w))
      = w_log w ++ delta /\
      (List.length (filter (is_write_open "o.txt") delta) <= 1)%nat).
Proof.
  intros same differ st w. split; [|split].
  - exact (proj1 (proj2 (stderr_alias (P := Toy.host) same None None w
                           "o.txt" "o.txt" eq_refl eq_refl eq_refl)
                    (st 3) [] (st 3) 3 (st 4) (st 4) eq_refl
                    (or_introl (conj eq_refl (conj eq_refl eq_refl)))
                    eq_refl ltac:(discriminate) eq_refl)
             eq_refl (st 4) eq_refl).
  - pose proof (stderr_alias (P := Toy.host) differ None None w
                  "o.txt" "e.txt" eq_refl eq_refl eq_refl) as H.
    apply proj2 in H.
    specialize (H (st 3) [EvOpen "in.txt" O_RDONLY None 3; EvDup2 3 0 0]
                  (st 4) 4 (st 5) (st 5) eq_refl).
    assert (Hin :
      exists i fdin sa,
        in_ differ = Some i /\
        Toy.toy_open i O_RDONLY None (st 3) = Some (fdin, sa) /\
        0 <= fdin /\
        Toy.toy_dup2 fdin STDIN_FILENO sa = Some (st 4) /\
        [EvOpen "in.txt" O_RDONLY None 3; EvDup2 3 0 0]
        = [EvOpen i O_RDONLY None fdin;
           EvDup2 fdin STDIN_FILENO STDIN_FILENO]).
    { exists "in.txt", 3, (st 4). repeat split. discriminate. }
    specialize (H (or_intror Hin) eq_refl ltac:(discriminate) eq_refl).
    apply proj2 in H.
    specialize (H ltac:(discriminate) 5 (st 6) (st 6) eq_refl).
    exact (H ltac:(discriminate) eq_refl).
  - exact (proj1 (stderr_alias (P := Toy.host) same None None w
                    "o.txt" "o.txt" eq_refl eq_refl eq_refl)
             eq_refl _ _ eq_refl).
Defined.

(** * Further properties *)

Ltac in_inv :=
  repeat match goal with
  | H : In _ (_ :: _) |- _ => destruct H as [H|H]
  | H : In _ [] |- _ => destruct H
  | H : @eq event _ _ |- _ =>
      first [discriminate H | inversion H; subst; clear H]
  end.

Ltac run_calls :=
  cbv beta iota zeta delta
    [bind ret chdir getcwd open close dup2 pipe fork waitpid execvp printf
     exit undefined read_env c_setenv step emit w_env w_os w_log
     STDIN_FILENO STDOUT_FILENO STDERR_FILENO] in *.

(** ** The environment and [strtok] *)

Lemma getenv_env_set_same n v e : getenv n (env_set n v e) = Some v.
Proof.
  induction e as [|[m u] e IH]; simpl.
  - rewrite String.eqb_refl. reflexivity.
  - destruct (String.eqb m n) eqn:E; simpl; rewrite E; [reflexivity|exact IH].
Qed.

Lemma getenv_env_set_other n m v e :
  m <> n -> getenv m (env_set n v e) = getenv m e.
Proof.
  intros Hne. induction e as [|[k u] e IH]; simpl.
  - destruct (String.eqb_spec n m); [congruence|reflexivity].
  - destruct (String.eqb_spec k n) as [->|Hk]; simpl.
    + destruct (String.eqb_spec n m); [congruence|reflexivity].
    + destruct (String.eqb k m); [reflexivity|exact IH].
Qed.

Lemma setenv_binds n v e :
  n <> EmptyString -> strchr n EQUALS = None ->
  setenv n v 1 e = (0, env_set n v e).
Proof.
  intros Hn Hs. unfold setenv.
  destruct n; [congruence|]. rewrite Hs.
  destruct (getenv (String a n) e); reflexivity.
Qed.

Lemma split_delim_app c n rest :
  strchr n c = None ->
  split_delim c (String.append n (String c rest)) = (n, rest).
Proof.
  induction n as [|a n IH]; simpl.
  - intros _. rewrite Ascii.eqb_refl. reflexivity.
  - destruct (Ascii.eqb a c); [discriminate|]. intros H. rewrite (IH H).
    reflexivity.
Qed.

Lemma skip_delim_head c n rest :
  n <> EmptyString -> strchr n c = None ->
  skip_delim c (String.append n rest) = String.append n rest.
Proof.
  destruct n as [|a n]; [congruence|]. simpl.
  destruct (Ascii.eqb a c); [discriminate|reflexivity].
Qed.

Lemma strtok_field c n rest :
  n <> EmptyString -> strchr n c = None ->
  strtok c (String.append n (String c rest)) = (Some n, rest).
Proof.
  intros Hn Hs. unfold strtok. rewrite (skip_delim_head _ _ _ Hn Hs).
  destruct n as [|a n]; [congruence|].
  change (String.append (String a n) (String c rest))
    with (String a (String.append n (String c rest))).
  cbv beta iota.
  change (String a (String.append n (String c rest)))
    with (String.append (String a n) (String c rest)).
  rewrite (split_delim_app _ _ _ Hs). reflexivity.
Qed.

Lemma strtok_last c n :
  n <> EmptyString -> strchr n c = None ->
  fst (strtok c n) = Some n.
Proof.
  intros Hn Hs. rewrite (strtok_plain _ _ Hs). destruct n; [congruence|].
  reflexivity.
Qed.

Lemma strchr_app_delim c n rest :
  strchr (String.append n (String c rest)) c <> None.
Proof.
  induction n as [|a n IH]; simpl.
  - rewrite Ascii.eqb_refl. discriminate.
  - destruct (Ascii.eqb a c); [discriminate|exact IH].
Qed.

(** ** The fields of an assignment word *)

Lemma fields_delim c s : fields c (String c s) = fields c s.
Proof.
  unfold fields. cbn [pieces]. destruct (pieces c s) as [p ps].
  rewrite Ascii.eqb_refl. reflexivity.
Qed.

Lemma fields_char c a s :
  Ascii.eqb a c = false ->
  fields c (String a s)
  = String a (fst (pieces c s)) :: filter nonempty (snd (pieces c s)).
Proof.
  intros H. unfold fields. cbn [pieces]. destruct (pieces c s) as [p ps].
  rewrite H. reflexivity.
Qed.

Lemma split_delim_pieces c s :
  fst (split_delim c s) = fst (pieces c s) /\
  filter nonempty (snd (pieces c s)) = fields c (snd (split_delim c s)).
Proof.
  induction s as [|a s IH]; [split; reflexivity|].
  cbn [split_delim pieces].
  destruct (pieces c s) as [p ps] eqn:Ep.
  destruct (split_delim c s) as [tok rest]. cbn [fst snd] in IH.
  destruct IH as [-> IH].
  destruct (Ascii.eqb a c).
  - cbn [fst snd]. split; [reflexivity|]. unfold fields. rewrite Ep.
    reflexivity.
  - cbn [fst snd]. split; [reflexivity|exact IH].
Qed.

Lemma strtok_fields c s :
  match fields c s with
  | [] => strtok c s = (None, EmptyString)
  | f :: fs => fst (strtok c s) = Some f /\ fields c (snd (strtok c s)) = fs
  end.
Proof.
  induction s as [|a s IH]; [reflexivity|].
  destruct (Ascii.eqb a c) eqn:E.
  - apply Ascii.eqb_eq in E. subst a. rewrite fields_delim, strtok_skip.
    exact IH.
  - rewrite (fields_char _ _ _ E), (strtok_head _ _ _ E). cbn [fst snd].
    destruct (split_delim_pieces c (String a s)) as [H1 H2].
    cbn [pieces] in H1, H2. destruct (pieces c s) as [p ps].
    rewrite E in H1, H2. cbn [fst snd] in *.
    split; [rewrite H1; reflexivity|symmetry; exact H2].
Qed.

Lemma pieces_free c s p :
  In p (fst (pieces c s) :: snd (pieces c s)) -> strchr p c = None.
Proof.
  revert p. induction s as [|a s IH]; intros p.
  - cbn. intros [<-|[]]. reflexivity.
  - cbn [pieces]. destruct (pieces c s) as [q qs]. cbn [fst snd] in IH.
    destruct (Ascii.eqb a c) eqn:E; cbn [fst snd].
    + intros [<-|H]; [reflexivity|apply IH, H].
    + intros [<-|H].
      * cbn [strchr]. rewrite E. apply IH. left. reflexivity.
      * apply IH. right. exact H.
Qed.

Lemma fields_sound c s f :
  In f (fields c s) -> f <> EmptyString /\ strchr f c = None.
Proof.
  unfold fields. pose proof (pieces_free c s) as Hp.
  destruct (pieces c s) as [p ps]. cbn [fst snd] in Hp.
  intros H. apply filter_In in H. destruct H as [Hin Hne]. split.
  - intros ->. discriminate Hne.
  - apply Hp, Hin.
Qed.

(** ** Wait statuses *)

Lemma land_255 y : Z.land y 255 = y mod 256.
Proof. change 255 with (Z.ones 8). rewrite Z.land_ones by lia. reflexivity. Qed.

Lemma WEXITSTATUS_range st : 0 <= WEXITSTATUS st <= 255.
Proof.
  unfold WEXITSTATUS. rewrite land_255.
  enough (0 <= Z.shiftr st 8 mod 256 < 256) by lia.
  apply Z.mod_pos_bound. lia.
Qed.

Lemma exit_status_round_trip c :
  WIFEXITED (exit_wait_status c) = true /\
  WEXITSTATUS (exit_wait_status c) = c mod 256.
Proof.
  unfold WIFEXITED, WEXITSTATUS, exit_wait_status. split.
  - apply Z.eqb_eq. apply Z.bits_inj'. intros n Hn.
    rewrite Z.land_spec, Z.bits_0.
    destruct (Z.ltb_spec n 7).
    + rewrite Z.shiftl_spec_low by lia. reflexivity.
    + change 127 with (Z.ones 7). rewrite Z.ones_spec_high by lia.
      apply andb_false_r.
  - rewrite Z.shiftr_shiftl_l by lia. change (8 - 8) with 0.
    rewrite Z.shiftl_0_r, <- Z.land_assoc. change (Z.land 255 255) with 255.
    apply land_255.
Qed.

(** ** What every call keeps

    [grows], [stays] and [wires_in_child] hold of each call and pass
    through [bind]; a fork that answers 0 settles the last two for what
    follows it. *)

Section Frame.

Context {S : Type} (K : kernel S).

Lemma grows_ret {A} (a : A) : grows (S := S) (ret a).
Proof. intros w res w' H. inversion H. exists []. symmetry. apply app_nil_r. Qed.

Lemma grows_bind {A B} (m : M S A) (f : A -> M S B) :
  grows m -> (forall a, grows (f a)) -> grows (bind m f).
Proof.
  intros Hm Hf w res w'. unfold bind.
  destruct (m w) as [[a|n|p a|] w1] eqn:E; intros H.
  - destruct (Hm _ _ _ E) as [d1 H1]. destruct (Hf a _ _ _ H) as [d2 H2].
    exists (d1 ++ d2). rewrite H2, H1. symmetry. apply app_assoc.
  - inversion H; subst. apply (Hm _ _ _ E).
  - inversion H; subst. apply (Hm _ _ _ E).
  - inversion H; subst. apply (Hm _ _ _ E).
Qed.

Ltac one_call :=
  intros w res w' H;
  cbv beta iota zeta delta
    [chdir getcwd open close dup2 pipe fork waitpid execvp printf exit
     undefined read_env c_setenv step emit] in H;
  break_in H; inversion H; subst; clear H; cbn [w_log];
  first [ eexists; reflexivity | exists []; symmetry; apply app_nil_r ].

Lemma grows_chdir p : grows (chdir K p). Proof. one_call. Qed.
Lemma grows_getcwd n : grows (getcwd K n). Proof. one_call. Qed.
Lemma grows_open p f m : grows (open K p f m). Proof. one_call. Qed.
Lemma grows_close fd : grows (close K fd). Proof. one_call. Qed.
Lemma grows_dup2 a b : grows (dup2 K a b). Proof. one_call. Qed.
Lemma grows_pipe : grows (pipe K). Proof. one_call. Qed.
Lemma grows_fork : grows (fork K). Proof. one_call. Qed.
Lemma grows_waitpid p o : grows (waitpid K p o). Proof. one_call. Qed.
Lemma grows_execvp f a : grows (execvp K f a). Proof. one_call. Qed.
Lemma grows_exit {A} n : grows (exit (S := S) (A := A) n).
Proof. one_call. Qed.
Lemma grows_printf m : grows (printf (S := S) m). Proof. one_call. Qed.
Lemma grows_undefined {A} : grows (undefined (S := S) (A := A)).
Proof. one_call. Qed.
Lemma grows_read_env : grows (read_env (S := S)). Proof. one_call. Qed.
Lemma grows_setenv n v o : grows (c_setenv (S := S) n v o).
Proof. one_call. Qed.

Lemma stays_of_returns {A} (m : M S A) : returns m -> stays m.
Proof. intros Hr w res w' H Hl. rewrite (Hr _ _ _ H) in Hl. discriminate. Qed.

Ltac one_return :=
  apply stays_of_returns; intros w res w' H;
  cbv beta iota zeta delta
    [ret chdir getcwd open close dup2 pipe fork waitpid printf
     undefined read_env c_setenv step emit] in H;
  break_in H; inversion H; subst; reflexivity.

Lemma stays_ret {A} (a : A) : stays (S := S) (ret a). Proof. one_return. Qed.
Lemma stays_chdir p : stays (chdir K p). Proof. one_return. Qed.
Lemma stays_getcwd n : stays (getcwd K n). Proof. one_return. Qed.
Lemma stays_open p f m : stays (open K p f m). Proof. one_return. Qed.
Lemma stays_close fd : stays (close K fd). Proof. one_return. Qed.
Lemma stays_dup2 a b : stays (dup2 K a b). Proof. one_return. Qed.
Lemma stays_pipe : stays (pipe K). Proof. one_return. Qed.
Lemma stays_waitpid p o : stays (waitpid K p o). Proof. one_return. Qed.
Lemma stays_printf m : stays (printf (S := S) m). Proof. one_return. Qed.
Lemma stays_undefined {A} : stays (undefined (S := S) (A := A)).
Proof. one_return. Qed.
Lemma stays_read_env : stays (read_env (S := S)). Proof. one_return. Qed.
Lemma stays_setenv n v o : stays (c_setenv (S := S) n v o).
Proof. one_return. Qed.

Lemma stays_bind {A B} (m : M S A) (f : A -> M S B) :
  stays m -> (forall a, stays (f a)) -> stays (bind m f).
Proof.
  intros Hm Hf w res w'. unfold bind.
  destruct (m w) as [[a|n|p a|] w1] eqn:E; intros H Hl.
  - apply (Hf a _ _ _ H Hl).
  - inversion H; subst. apply (Hm _ _ _ E). reflexivity.
  - inversion H; subst. apply (Hm _ _ _ E). reflexivity.
  - inversion H; subst. discriminate Hl.
Qed.

(** Behind a fork that answered 0 everything stays in a child. *)
Lemma stays_fork {A} (k : Z -> M S A) :
  grows (k 0) -> (forall pid, pid <> 0 -> stays (k pid)) ->
  stays (bind (fork K) k).
Proof.
  intros H0 Hk w res w'. unfold bind, fork.
  destruct (k_fork K (w_os w)) as [pid s]. intros H Hl.
  destruct (Z.eq_dec pid 0) as [->|Hne].
  - destruct (H0 _ _ _ H) as [d Hd]. rewrite Hd. cbn [step w_log].
    rewrite !existsb_app. cbn. rewrite orb_true_r. reflexivity.
  - apply (Hk pid Hne _ _ _ H Hl).
Qed.


Lemma wires_bind {A B} (m : M S A) (f : A -> M S B) :
  wires_in_child m -> (forall a, wires_in_child (f a)) ->
  wires_in_child (bind m f).
Proof.
  intros Hm Hf w res w'. unfold bind.
  destruct (m w) as [[a|n|p a|] w1] eqn:E; intros H.
  - destruct (Hm _ _ _ E) as (d1 & H1 & B1).
    destruct (Hf a _ _ _ H) as (d2 & H2 & B2).
    exists (d1 ++ d2). split; [rewrite H2, H1; symmetry; apply app_assoc|].
    intros Hc. rewrite existsb_app. rewrite (B2 Hc), orb_false_r.
    apply B1. rewrite H2, existsb_app in Hc.
    apply orb_false_iff in Hc. apply Hc.
  - inversion H; subst. apply (Hm _ _ _ E).
  - inversion H; subst. apply (Hm _ _ _ E).
  - inversion H; subst. apply (Hm _ _ _ E).
Qed.

Ltac one_quiet :=
  intros w res w' H;
  cbv beta iota zeta delta
    [ret chdir getcwd open close pipe fork waitpid execvp printf exit
     undefined read_env c_setenv step emit] in H;
  break_in H; inversion H; subst; clear H; cbn [w_log];
  first [ eexists; split; [reflexivity|intros _; reflexivity]
        | exists []; split; [symmetry; apply app_nil_r|intros _; reflexivity] ].

Lemma wires_ret {A} (a : A) : wires_in_child (S := S) (ret a).
Proof. one_quiet. Qed.
Lemma wires_chdir p : wires_in_child (chdir K p). Proof. one_quiet. Qed.
Lemma wires_getcwd n : wires_in_child (getcwd K n). Proof. one_quiet. Qed.
Lemma wires_open p f m : wires_in_child (open K p f m).
Proof. one_quiet. Qed.
Lemma wires_close fd : wires_in_child (close K fd). Proof. one_quiet. Qed.
Lemma wires_pipe : wires_in_child (pipe K). Proof. one_quiet. Qed.
Lemma wires_waitpid p o : wires_in_child (waitpid K p o).
Proof. one_quiet. Qed.
Lemma wires_printf m : wires_in_child (printf (S := S) m).
Proof. one_quiet. Qed.
Lemma wires_undefined {A} : wires_in_child (undefined (S := S) (A := A)).
Proof. one_quiet. Qed.
Lemma wires_read_env : wires_in_child (read_env (S := S)).
Proof. one_quiet. Qed.
Lemma wires_setenv n v o : wires_in_child (c_setenv (S := S) n v o).
Proof. one_quiet. Qed.

Lemma wires_fork {A} (k : Z -> M S A) :
  grows (k 0) -> (forall pid, pid <> 0 -> wires_in_child (k pid)) ->
  wires_in_child (bind (fork K) k).
Proof.
  intros H0 Hk w res w'. unfold bind, fork.
  destruct (k_fork K (w_os w)) as [pid s]. intros H.
  destruct (Z.eq_dec pid 0) as [->|Hne].
  - destruct (H0 _ _ _ H) as [d Hd]. cbn [step w_log] in Hd.
    exists ([EvFork 0] ++ d). split; [rewrite Hd; symmetry; apply app_assoc|].
    intros Hc. rewrite Hd, !existsb_app in Hc. cbn in Hc.
    rewrite orb_true_r in Hc. discriminate Hc.
  - destruct (Hk pid Hne _ _ _ H) as (d & Hd & Bd). cbn [step w_log] in Hd.
    exists ([EvFork pid] ++ d). split; [rewrite Hd; symmetry; apply app_assoc|].
    intros Hc. rewrite existsb_app, (Bd Hc). reflexivity.
Qed.

End Frame.

Create HintDb shell_calls.
#[export] Hint Resolve grows_ret grows_chdir grows_getcwd grows_open
  grows_close grows_dup2 grows_pipe grows_fork grows_waitpid grows_execvp
  grows_exit grows_printf grows_undefined grows_read_env grows_setenv
  stays_ret stays_chdir stays_getcwd stays_open stays_close stays_dup2
  stays_pipe stays_waitpid stays_printf stays_undefined stays_read_env
  stays_setenv wires_ret wires_chdir wires_getcwd wires_open wires_close
  wires_pipe wires_waitpid wires_printf wires_undefined wires_read_env
  wires_setenv : shell_calls.

(** Follow the shape of a computation: binds, branches, calls. *)
Ltac walk :=
  repeat match goal with
  | |- grows (bind _ _) => apply grows_bind; [|intros ?]
  | |- stays (bind (fork _) _) => fail 1
  | |- stays (bind _ _) => apply stays_bind; [|intros ?]
  | |- wires_in_child (bind (fork _) _) => fail 1
  | |- wires_in_child (bind _ _) => apply wires_bind; [|intros ?]
  | |- wires_in_child (if ?b then _ else _) => destruct b
  | |- wires_in_child (match ?x with _ => _ end) => destruct x
  | |- grows (if ?b then _ else _) => destruct b
  | |- stays (if ?b then _ else _) => destruct b
  | |- grows (match ?x with _ => _ end) => destruct x
  | |- stays (match ?x with _ => _ end) => destruct x
  | |- _ => solve [auto with shell_calls]
  end.

Section Further.

Context `{P : platform}.

Lemma grows_parse_simple sc : grows (parse_simple sc).
Proof.
  unfold parse_simple, shell_exit, cd_redirect, shell_cd, child_in, child_out,
    child_err, wire_err, child_exec, wait_child, get_word_opt, get_word,
    get_argv.
  walk.
Qed.

Lemma grows_run_in_parallel e1 e2 :
  grows e1 -> grows e2 -> grows (run_in_parallel e1 e2).
Proof. intros H1 H2. unfold run_in_parallel. walk. Qed.

Lemma grows_run_on_pipe e1 e2 :
  grows e1 -> grows e2 -> grows (run_on_pipe e1 e2).
Proof. intros H1 H2. unfold run_on_pipe. walk. Qed.

Ltac behind_fork :=
  first [apply stays_fork | apply wires_fork];
  [ cbv beta; change (0 <? 0) with false; change (0 =? 0) with true;
    cbv iota
  | let p := fresh "p" in
    let Hp := fresh "Hp" in
    intros p Hp; destruct (p <? 0);
    [|destruct (Z.eqb_spec p 0); [contradiction|]] ].

Lemma stays_parse_simple sc : stays (parse_simple sc).
Proof.
  unfold parse_simple, shell_exit, cd_redirect, shell_cd, wait_child,
    get_word_opt, get_word, get_argv.
  walk.
  behind_fork.
  - unfold child_in, child_out, child_err, wire_err, child_exec,
      get_word_opt, get_word, get_argv. walk.
  - walk.
  - walk.
Qed.

Lemma stays_run_in_parallel e1 e2 :
  grows e1 -> grows e2 -> stays (run_in_parallel e1 e2).
Proof.
  intros H1 H2. unfold run_in_parallel.
  behind_fork; walk.
  behind_fork; walk.
Qed.

Lemma stays_run_on_pipe e1 e2 :
  grows e1 -> grows e2 -> stays (run_on_pipe e1 e2).
Proof.
  intros H1 H2. unfold run_on_pipe. walk.
  behind_fork; walk.
  behind_fork; walk.
Qed.

Lemma wires_parse_simple sc : wires_in_child (parse_simple sc).
Proof.
  unfold parse_simple, shell_exit, cd_redirect, shell_cd, wait_child,
    get_word_opt, get_word, get_argv.
  walk.
  behind_fork.
  - unfold child_in, child_out, child_err, wire_err, child_exec,
      get_word_opt, get_word, get_argv. walk.
  - walk.
  - walk.
Qed.

Lemma wires_run_in_parallel e1 e2 :
  grows e1 -> grows e2 -> wires_in_child (run_in_parallel e1 e2).
Proof.
  intros H1 H2. unfold run_in_parallel.
  behind_fork; walk.
  behind_fork; walk.
Qed.

Lemma wires_run_on_pipe e1 e2 :
  grows e1 -> grows e2 -> wires_in_child (run_on_pipe e1 e2).
Proof.
  intros H1 H2. unfold run_on_pipe. walk.
  behind_fork; walk.
  behind_fork; walk.
Qed.

Lemma parse_node_frame c :
  grows (parse_node c) /\ stays (parse_node c) /\
  wires_in_child (parse_node c).
Proof.
  induction c as [op sc c1 c2 IH1 IH2] using (command_t_rect' _).
  assert (G1 : grows (parse_command c1)).
  { destruct c1; [apply IH1|apply grows_ret]. }
  assert (G2 : grows (parse_command c2)).
  { destruct c2; [apply IH2|apply grows_ret]. }
  assert (S1 : stays (parse_command c1)).
  { destruct c1; [apply IH1|apply stays_ret]. }
  assert (S2 : stays (parse_command c2)).
  { destruct c2; [apply IH2|apply stays_ret]. }
  assert (W1 : wires_in_child (parse_command c1)).
  { destruct c1; [apply IH1|apply wires_ret]. }
  assert (W2 : wires_in_child (parse_command c2)).
  { destruct c2; [apply IH2|apply wires_ret]. }
  change (grows (parse_command (Some (Command op sc c1 c2))) /\
          stays (parse_command (Some (Command op sc c1 c2))) /\
          wires_in_child (parse_command (Some (Command op sc c1 c2)))).
  destruct op.
  - rewrite eval_simple.
    split; [apply grows_parse_simple|].
    split; [apply stays_parse_simple|apply wires_parse_simple].
  - rewrite eval_sequential. repeat split; walk.
  - rewrite eval_parallel. repeat split; walk.
    + apply grows_run_in_parallel; assumption.
    + apply stays_run_in_parallel; assumption.
    + apply wires_run_in_parallel; assumption.
  - rewrite eval_conditional_zero. repeat split; walk.
  - rewrite eval_conditional_nzero. repeat split; walk.
  - rewrite eval_pipe. repeat split; walk.
    + apply grows_run_on_pipe; assumption.
    + apply stays_run_on_pipe; assumption.
    + apply wires_run_on_pipe; assumption.
  - split; [apply grows_ret|split; [apply stays_ret|apply wires_ret]].
Qed.

Lemma parse_command_frame c :
  grows (parse_command c) /\ stays (parse_command c) /\
  wires_in_child (parse_command c).
Proof.
  destruct c; [apply parse_node_frame|].
  split; [apply grows_ret|split; [apply stays_ret|apply wires_ret]].
Qed.

(** X1: a command whose verb is [exit] or [quit] returns the sentinel
    whatever arguments and redirections it declares; it calls nothing, so
    no declared target is opened or created, and the process itself goes
    on: leaving is the caller's business. *)
Theorem exit_ignores_everything s l r w :
  resolve_word (verb s) (w_env w) = "exit" \/
  resolve_word (verb s) (w_env w) = "quit" ->
  parse_command (Some (Command OP_NONE (Some s) l r)) w
  = (Returned SHELL_EXIT, w).
Proof.
  intros H. rewrite eval_simple.
  unfold parse_simple, get_word, read_env. unfold bind at 1 2. unfold ret at 1.
  destruct H as [-> | ->]; reflexivity.
Qed.

(** X2: an external command in the process that called [fork] (the fork did
    not answer 0).  The command returns a status between 0 and 255 and the
    environment is untouched; the calls are the fork and at most one
    blocking [waitpid] for that child.  The status is [WEXITSTATUS] of the
    wait status when the child exited, and 1 when the fork failed, the wait
    failed or the child ended otherwise. *)
Theorem external_parent_status s l r w res w' :
  is_external (resolve_word (verb s) (w_env w)) = true ->
  fst (k_fork kern (w_os w)) <> 0 ->
  parse_command (Some (Command OP_NONE (Some s) l r)) w = (res, w') ->
  exists x pid,
    res = Returned x /\ 0 <= x <= 255 /\ w_env w' = w_env w /\
    ((pid < 0 /\ x = 1 /\
      w_log w' = w_log w ++ [EvFork pid; EvPrintf MSG_FORK]) \/
     (0 < pid /\ x = 1 /\
      w_log w' = w_log w ++ [EvFork pid; EvWaitpid pid 0 None;
                             EvPrintf MSG_WAITPID]) \/
     (exists st, 0 < pid /\ WIFEXITED st = true /\ x = WEXITSTATUS st /\
        w_log w' = w_log w ++ [EvFork pid; EvWaitpid pid 0 (Some st)]) \/
     (exists st, 0 < pid /\ WIFEXITED st = false /\ x = 1 /\
        w_log w' = w_log w ++ [EvFork pid; EvWaitpid pid 0 (Some st);
                               EvPrintf MSG_ABNORMAL])).
Proof.
  intros Hext Hpid. rewrite eval_simple, (parse_simple_external _ _ Hext).
  unfold wait_child. destruct w as [env os lg]. cbn [w_os w_env w_log] in *.
  intros H.
  cbv beta iota zeta delta
    [bind ret fork waitpid printf step emit w_env w_os w_log] in H.
  destruct (k_fork kern os) as [pid s1] eqn:Ef. cbn [fst] in Hpid.
  destruct (pid <? 0) eqn:Eneg.
  - inversion H; subst; clear H. apply Z.ltb_lt in Eneg.
    exists 1, pid. split; [reflexivity|]. split; [lia|].
    split; [reflexivity|]. left. split; [lia|]. split; [reflexivity|].
    cbn [w_log]. log_refl.
  - apply Z.ltb_ge in Eneg.
    destruct (pid =? 0) eqn:Ez; [apply Z.eqb_eq in Ez; contradiction|].
    destruct (k_waitpid kern pid 0 s1) as [[st s2]|] eqn:Ew.
    + destruct (WIFEXITED st) eqn:Ex; inversion H; subst; clear H.
      * exists (WEXITSTATUS st), pid. split; [reflexivity|].
        split; [apply WEXITSTATUS_range|]. split; [reflexivity|].
        right; right; left. exists st. split; [lia|].
        split; [exact Ex|]. split; [reflexivity|]. cbn [w_log]. log_refl.
      * exists 1, pid. split; [reflexivity|]. split; [lia|].
        split; [reflexivity|].
        right; right; right. exists st. split; [lia|].
        split; [exact Ex|]. split; [reflexivity|]. cbn [w_log]. log_refl.
    + inversion H; subst; clear H. exists 1, pid. split; [reflexivity|].
      split; [lia|]. split; [reflexivity|].
      right; left. split; [lia|]. split; [reflexivity|].
      cbn [w_log]. log_refl.
Qed.

(** X3: the exit code [c] of the child of an external command comes back as
    [c mod 256]: the [exit(-1)] of a child whose [execvp] failed is read as
    255 by its parent. *)
Theorem external_status_of_exit s l r w pid s1 s2 c :
  is_external (resolve_word (verb s) (w_env w)) = true ->
  k_fork kern (w_os w) = (pid, s1) -> 0 < pid ->
  k_waitpid kern pid 0 s1 = Some (exit_wait_status c, s2) ->
  fst (parse_command (Some (Command OP_NONE (Some s) l r)) w)
  = Returned (c mod 256).
Proof.
  intros Hext Hf Hpos Hw. rewrite eval_simple, (parse_simple_external _ _ Hext).
  unfold wait_child. destruct w as [env os lg]. cbn [w_os] in *.
  cbv beta iota zeta delta
    [bind ret fork waitpid printf step emit w_env w_os w_log].
  rewrite Hf.
  destruct (Z.ltb_spec pid 0); [lia|]. destruct (Z.eqb_spec pid 0); [lia|].
  rewrite Hw. destruct (exit_status_round_trip c) as [-> ->]. reflexivity.
Qed.

(** X4: [execvp] is called only in the child of an external command, with
    the resolved verb and argument vector, and only after every declared
    redirection succeeded: no open and no [dup2] failed before it, the
    stdin target was opened read-only and put on descriptor 0, the stdout
    target was opened for writing and put on descriptor 1, and something
    was put on descriptor 2 when a stderr target is declared. *)
Theorem exec_after_redirections s l r w res w' :
  parse_command (Some (Command OP_NONE (Some s) l r)) w = (res, w') ->
  exists delta,
    w_log w' = w_log w ++ delta /\
    forall f a b, In (EvExecvp f a b) delta ->
      f = resolve_word (verb s) (w_env w) /\
      a = resolve_argv s (w_env w) /\
      existsb failed_open delta = false /\
      existsb failed_dup2 delta = false /\
      (forall i, in_ s = Some i ->
         exists fd,
           In (EvOpen (resolve_word i (w_env w)) O_RDONLY None fd) delta /\
           In (EvDup2 fd STDIN_FILENO STDIN_FILENO) delta) /\
      (forall o, out s = Some o ->
         exists fd,
           In (EvOpen (resolve_word o (w_env w)) (write_flags s)
                 (Some MODE_0644) fd) delta /\
           In (EvDup2 fd STDOUT_FILENO STDOUT_FILENO) delta) /\
      (forall e, err s = Some e ->
         exists fd, In (EvDup2 fd STDERR_FILENO STDERR_FILENO) delta).
Proof.
  rewrite eval_simple.
  unfold parse_simple, shell_exit, cd_redirect, shell_cd, child_in, child_out,
    child_err, wire_err, child_exec, wait_child.
  generalize (write_flags s). intros wf.
  destruct s as [v p i o e fl]. destruct w as [env os lg].
  cbn [verb in_ out err params w_env w_log].
  intros H.
  cbv beta iota zeta delta
    [bind ret chdir getcwd open close dup2 pipe fork waitpid execvp printf
     exit undefined read_env c_setenv step emit w_env w_os w_log
     get_word get_word_opt get_argv strcmp_eq
     STDIN_FILENO STDOUT_FILENO STDERR_FILENO] in H.
  break_in H.
  all: try discriminate.
  all: try (exfalso; zify_bools; lia).
  all: inversion H; subst; clear H.
  all: cbn [w_log]; repeat rewrite <- app_assoc.
  all: eexists; split; [first [reflexivity | symmetry; apply app_nil_r]|].
  all: cbn [app]; intros f a b Hin; in_inv.
  all: split; [reflexivity|]; split; [reflexivity|].
  all: cbn [existsb failed_open failed_dup2 orb]; use_bools.
  all: split; [reflexivity|]; split; [reflexivity|].
  all: split; [|split]; intros t Ht; try discriminate Ht;
       inversion Ht; subst; clear Ht; eexists; try split; in_list.
Qed.

(** X5: the two children of a Parallel node.  The process in which the
    first fork answers 0 evaluates the left operand and nothing else: it
    never returns from the node, and when the operand returns [x] it ends
    with [exit x].  The same holds with the right operand for the process
    in which the second fork answers 0. *)
Theorem parallel_branches_exit sc l r w p1 s1 :
  k_fork kern (w_os w) = (p1, s1) -> 0 <= p1 ->
  let w1 := step s1 (EvFork p1) w in
  (p1 = 0 ->
   (forall res w', parse_command (Some (Command OP_PARALLEL sc l r)) w
                   = (res, w') -> forall x, res <> Returned x) /\
   (forall x w2, parse_command l w1 = (Returned x, w2) ->
      parse_command (Some (Command OP_PARALLEL sc l r)) w
      = (Exited x, emit (EvExit x) w2))) /\
  (0 < p1 ->
   forall s2, k_fork kern s1 = (0, s2) ->
   let w2 := step s2 (EvFork 0) w1 in
   (forall res w', parse_command (Some (Command OP_PARALLEL sc l r)) w
                   = (res, w') -> forall x, res <> Returned x) /\
   (forall x w3, parse_command r w2 = (Returned x, w3) ->
      parse_command (Some (Command OP_PARALLEL sc l r)) w
      = (Exited x, emit (EvExit x) w3))).
Proof.
  intros Hf Hp. cbv zeta. rewrite eval_parallel. unfold run_in_parallel.
  destruct w as [env os lg]. run_calls. rewrite Hf.
  split.
  - intros ->. cbn [Z.ltb Z.eqb Z.compare]. split.
    + intros res w'.
      destruct (parse_command l _) as [[x| | |] w2];
        intros Hrun; inversion Hrun; discriminate.
    + intros x w2 ->. reflexivity.
  - intros Hpos s2 Hf2.
    destruct (Z.ltb_spec p1 0); [lia|]. destruct (Z.eqb_spec p1 0); [lia|].
    rewrite Hf2. cbn [Z.ltb Z.eqb Z.compare]. split.
    + intros res w'.
      destruct (parse_command r _) as [[x| | |] w2];
        intros Hrun; inversion Hrun; discriminate.
    + intros x w2 ->. reflexivity.
Qed.

(** X6: the two children of a Pipe node.  The left child closes the read
    end, puts the write end on descriptor 1, evaluates the left operand and
    ends with [exit] of its status; the right child closes the write end,
    puts the read end on descriptor 0, evaluates the right operand and ends
    with [exit] of its status.  Neither returns from the node. *)
Theorem pipe_branches_exit sc l r w rd wr s0 p1 s1 :
  k_pipe kern (w_os w) = Some (rd, wr, s0) ->
  k_fork kern s0 = (p1, s1) -> 0 <= p1 ->
  let w1 := step s1 (EvFork p1) (step s0 (EvPipe (Some (rd, wr))) w) in
  (p1 = 0 ->
   forall s3, k_dup2 kern wr STDOUT_FILENO (k_close kern rd s1) = Some s3 ->
   let wl := step s3 (EvDup2 wr STDOUT_FILENO STDOUT_FILENO)
               (step (k_close kern rd s1) (EvClose rd) w1) in
   (forall res w', parse_command (Some (Command OP_PIPE sc l r)) w
                   = (res, w') -> forall x, res <> Returned x) /\
   (forall x w2, parse_command l wl = (Returned x, w2) ->
      parse_command (Some (Command OP_PIPE sc l r)) w
      = (Exited x, emit (EvExit x) w2))) /\
  (0 < p1 ->
   forall s2 s3, k_fork kern s1 = (0, s2) ->
   k_dup2 kern rd STDIN_FILENO (k_close kern wr s2) = Some s3 ->
   let wr' := step s3 (EvDup2 rd STDIN_FILENO STDIN_FILENO)
                (step (k_close kern wr s2) (EvClose wr)
                   (step s2 (EvFork 0) w1)) in
   (forall res w', parse_command (Some (Command OP_PIPE sc l r)) w
                   = (res, w') -> forall x, res <> Returned x) /\
   (forall x w3, parse_command r wr' = (Returned x, w3) ->
      parse_command (Some (Command OP_PIPE sc l r)) w
      = (Exited x, emit (EvExit x) w3))).
Proof.
  intros Hpipe Hf Hp. cbv zeta. rewrite eval_pipe. unfold run_on_pipe.
  destruct w as [env os lg]. run_calls. rewrite Hpipe.
  cbn [Z.ltb Z.compare]. rewrite Hf.
  split.
  - intros -> s3 Hd. cbn [Z.ltb Z.eqb Z.compare]. rewrite Hd.
    cbn [Z.ltb Z.compare]. split.
    + intros res w'.
      destruct (parse_command l _) as [[x| | |] w2];
        intros Hrun; inversion Hrun; discriminate.
    + intros x w2 ->. reflexivity.
  - intros Hpos s2 s3 Hf2 Hd.
    destruct (Z.ltb_spec p1 0); [lia|]. destruct (Z.eqb_spec p1 0); [lia|].
    rewrite Hf2. cbn [Z.ltb Z.eqb Z.compare]. rewrite Hd.
    cbn [Z.ltb Z.compare]. split.
    + intros res w'.
      destruct (parse_command r _) as [[x| | |] w2];
        intros Hrun; inversion Hrun; discriminate.
    + intros x w2 ->. reflexivity.
Qed.

(** X7: evaluating a command tree never ends the process that started it.
    Whatever the kernel answers, if the evaluation ends in [exit] or in a
    successful [execvp], a fork answered 0 on the way: the process that
    left is a child. *)
Theorem shell_process_survives c w res w' :
  parse_command c w = (res, w') ->
  exists delta,
    w_log w' = w_log w ++ delta /\
    (existsb is_child_fork (w_log w) = false ->
     (exists n, res = Exited n) \/ (exists f a, res = Replaced f a) ->
     existsb is_child_fork delta = true).
Proof.
  intros H.
  destruct (parse_command_frame c) as (G & St & _). destruct (G _ _ _ H) as [delta Hd].
  exists delta. split; [exact Hd|]. intros Hw Hres.
  assert (Hl : leaves res = true).
  { destruct Hres as [[n ->]|(f & a & ->)]; reflexivity. }
  pose proof (St _ _ _ H Hl) as Hc.
  rewrite Hd, existsb_app, Hw in Hc. exact Hc.
Qed.

(** X8: a verb [n=v], or [n=v=...], with [n] and [v] not empty: the status
    is 0, no system call is made, [n] is bound to [v] (what follows a
    second equals sign is dropped) and no other name changes. *)
Theorem assignment_binds s l r w n v t :
  n <> EmptyString -> v <> EmptyString ->
  strchr n EQUALS = None -> strchr v EQUALS = None ->
  (t = EmptyString \/ exists t', t = String EQUALS t') ->
  resolve_word (verb s) (w_env w)
  = String.append n (String EQUALS (String.append v t)) ->
  exists e',
    parse_command (Some (Command OP_NONE (Some s) l r)) w
    = (Returned 0, World e' (w_os w) (w_log w)) /\
    getenv n e' = Some v /\
    (forall m, m <> n -> getenv m e' = getenv m (w_env w)).
Proof.
  intros Hn Hv Hsn Hsv Ht Hw.
  exists (env_set n v (w_env w)).
  split; [|split; [apply getenv_env_set_same
                  |intros m Hm; apply getenv_env_set_other, Hm]].
  rewrite eval_simple.
  unfold parse_simple, get_word, read_env. unfold bind at 1 2. unfold ret at 1.
  rewrite Hw.
  pose proof (strchr_app_delim EQUALS n (String.append v t)) as Hc.
  destruct (assignment_not_builtin _ Hc) as (-> & -> & ->). cbn [orb].
  destruct (strchr (String.append n (String EQUALS (String.append v t))) EQUALS);
    [clear Hc|contradiction].
  rewrite (strtok_field _ _ _ Hn Hsn).
  assert (Hval : fst (strtok EQUALS (String.append v t)) = Some v).
  { destruct Ht as [->|[t' ->]].
    - assert (Happ : String.append v EmptyString = v).
      { clear. induction v; simpl; [reflexivity|]. rewrite IHv. reflexivity. }
      rewrite Happ. apply strtok_last; assumption.
    - rewrite (strtok_field _ _ _ Hv Hsv). reflexivity. }
  destruct (strtok EQUALS (String.append v t)) as [val save]. simpl in Hval.
  subst val. unfold bind, c_setenv, ret.
  rewrite (setenv_binds _ _ _ Hn Hsn). reflexivity.
Qed.

(** X9: a cd command, whatever its redirections and its argument, closes
    every descriptor it opened, in the order it opened them; it creates no
    process and no pipe and leaves the environment alone.  It returns 0 or
    1 to its caller, with one exception: when the first [chdir] failed and
    the argument joined to the current directory does not fit the buffer
    of 1024 bytes, the behaviour is undefined ([strcat] writes past the
    buffer), and what is said of the log holds up to that call. *)
Theorem cd_closes_what_it_opens s l r w res w' :
  resolve_word (verb s) (w_env w) = "cd" ->
  parse_command (Some (Command OP_NONE (Some s) l r)) w = (res, w') ->
  exists delta,
    w_log w' = w_log w ++ delta /\
    opened_fds delta = closed_fds delta /\
    existsb starts_process delta = false /\
    w_env w' = w_env w /\
    (res = Returned 0 \/ res = Returned 1 \/
     (res = Undefined /\
      exists d path,
        params s = Some d /\
        In (EvChdir (resolve_word d (w_env w)) (-1)) delta /\
        In (EvGetcwd (Some path)) delta /\
        ~ fits path (resolve_word d (w_env w)))).
Proof.
  intros Hv. rewrite eval_simple, (parse_simple_cd _ _ Hv).
  destruct s as [v p i o e fl]. destruct w as [env os lg].
  cbn [in_ out err params w_env w_log].
  unfold cd_redirect, shell_cd.
  intros H. run_calls_in H. break_in H.
  all: try discriminate.
  all: inversion H; subst; clear H.
  all: cbn [w_log w_env]; repeat rewrite <- app_assoc.
  all: eexists; split; [first [reflexivity | symmetry; apply app_nil_r]|].
  all: cbn [app opened_fds closed_fds flat_map existsb starts_process orb].
  all: use_bools; cbn [app].
  all: split; [reflexivity|]; split; [reflexivity|]; split; [reflexivity|].
  all: first
    [ left; reflexivity
    | right; left; reflexivity
    | right; right; split; [reflexivity|];
      do 2 eexists; split; [reflexivity|];
      split; [in_list|]; split; [in_list|];
      unfold fits; zify_bools; lia ].
Qed.

(** X10: Sequential is associative: [(a ; b) ; c] and [a ; (b ; c)] make
    the same calls and give the same outcome. *)
Theorem sequential_assoc sc sc' sc1 sc2 a b c w :
  parse_command
    (Some (Command OP_SEQUENTIAL sc
             (Some (Command OP_SEQUENTIAL sc1 a b)) c)) w
  = parse_command
      (Some (Command OP_SEQUENTIAL sc' a
               (Some (Command OP_SEQUENTIAL sc2 b c)))) w.
Proof.
  rewrite !eval_sequential. unfold bind.
  destruct (parse_command a w) as [[x| | |] w1]; try reflexivity.
Qed.

(** X11: ConditionalIfZero is associative, and so is ConditionalIfNonZero:
    [(a && b) && c] behaves as [a && (b && c)], [(a || b) || c] as
    [a || (b || c)]. *)
Theorem conditional_assoc sc sc' sc1 sc2 a b c w :
  parse_command
    (Some (Command OP_CONDITIONAL_ZERO sc
             (Some (Command OP_CONDITIONAL_ZERO sc1 a b)) c)) w
  = parse_command
      (Some (Command OP_CONDITIONAL_ZERO sc' a
               (Some (Command OP_CONDITIONAL_ZERO sc2 b c)))) w /\
  parse_command
    (Some (Command OP_CONDITIONAL_NZERO sc
             (Some (Command OP_CONDITIONAL_NZERO sc1 a b)) c)) w
  = parse_command
      (Some (Command OP_CONDITIONAL_NZERO sc' a
               (Some (Command OP_CONDITIONAL_NZERO sc2 b c)))) w.
Proof.
  rewrite !eval_conditional_zero, !eval_conditional_nzero. unfold bind.
  destruct (parse_command a w) as [[x| | |] w1]; try (split; reflexivity).
  destruct (x =? 0) eqn:E; cbn [negb]; unfold ret; rewrite ?E; cbn [negb].
  - split; reflexivity.
  - split; reflexivity.
Qed.

(** X12: [dup2] is called in children only: in a process where no fork
    answered 0, the evaluation of a command tree rewires no descriptor, so
    the standard streams of the shell itself stay as they were. *)
Theorem streams_rewired_in_children_only c w res w' :
  parse_command c w = (res, w') ->
  exists delta,
    w_log w' = w_log w ++ delta /\
    (existsb is_child_fork (w_log w') = false ->
     existsb rewires delta = false).
Proof. apply parse_command_frame. Qed.

(** X13: a Pipe node whose fork fails returns 1 with the pipe created and
    neither end closed, and waits for no child: after a failed second fork
    the left child is left running and writing to a pipe nobody reads. *)
Theorem pipe_fork_failure sc l r w x w' :
  parse_command (Some (Command OP_PIPE sc l r)) w = (Returned x, w') ->
  exists delta,
    w_log w' = w_log w ++ delta /\
    (existsb failed_fork delta = true ->
     x = 1 /\
     (exists rd wr, In (EvPipe (Some (rd, wr))) delta) /\
     existsb is_close delta = false /\
     existsb is_waitpid delta = false).
Proof.
  rewrite eval_pipe. unfold run_on_pipe. destruct w as [env os lg].
  intros H. run_calls_in H. break_in H.
  all: try discriminate H.
  all: inversion H; subst; clear H.
  all: cbn [w_log]; repeat rewrite <- app_assoc.
  all: eexists; split; [first [reflexivity | symmetry; apply app_nil_r]|].
  all: cbn [app existsb failed_fork is_close is_waitpid orb]; use_bools.
  all: cbn [orb negb] in *; intros Hf; try discriminate.
  all: split; [reflexivity|]; split; [do 2 eexists; in_list|].
  all: split; reflexivity.
Qed.

(** X14: a verb that holds an equals sign makes no call at all, and its
    outcome is read off its fields, the non-empty pieces between the equals
    signs: with two fields or more the first is bound to the second and
    the status is 0; with fewer (as [a=], [=a], [=a=], [==b]) the status is
    1 and nothing changes. *)
Theorem assignment_fields s l r w :
  let word := resolve_word (verb s) (w_env w) in
  strchr word EQUALS <> None ->
  parse_command (Some (Command OP_NONE (Some s) l r)) w
  = match fields EQUALS word with
    | n :: v :: _ =>
        (Returned 0, World (env_set n v (w_env w)) (w_os w) (w_log w))
    | _ => (Returned 1, w)
    end.
Proof.
  intros word Hs. rewrite eval_simple.
  unfold parse_simple, get_word, read_env. unfold bind at 1 2. unfold ret at 1.
  fold word. destruct (assignment_not_builtin word Hs) as (-> & -> & ->).
  cbn [orb]. destruct (strchr word EQUALS) eqn:E; [clear Hs|contradiction].
  pose proof (strtok_fields EQUALS word) as H1.
  pose proof (fields_sound EQUALS word) as Hsound.
  destruct (fields EQUALS word) as [|n fs].
  - rewrite H1. cbn. destruct (skip_delim EQUALS EmptyString); reflexivity.
  - destruct (strtok EQUALS word) as [var save]. cbn [fst snd] in H1.
    destruct H1 as [-> H1].
    pose proof (strtok_fields EQUALS save) as H2. rewrite H1 in H2.
    destruct fs as [|v fs'].
    + rewrite H2. reflexivity.
    + destruct (strtok EQUALS save) as [val save']. cbn [fst] in H2.
      destruct H2 as [-> _].
      destruct (Hsound n (or_introl eq_refl)) as [Hn Hc].
      unfold bind, c_setenv, ret. rewrite (setenv_binds _ _ _ Hn Hc).
      destruct w; reflexivity.
Qed.

End Further.

(** An instance: [quit now < /locked > o], on a machine where [/locked]
    cannot be opened. *)
Lemma exit_ignores_everything_witness :
  let w := Toy.boot [] [] in
  Toy.parse_command
    (Toy.simple "quit" (Some "now") (Some "/locked") (Some "o") None 0) w
  = (Returned Toy.SHELL_EXIT, w).
Proof.
  exact (exit_ignores_everything (P := Toy.host)
           (SimpleCommand "quit" (Some "now") (Some "/locked") (Some "o")
              None 0)
           None None (Toy.boot [] []) (or_intror eq_refl)).
Defined.

(** An instance: [false], whose child 10 exits with code 1. *)
Lemma external_parent_status_witness :
  let w := Toy.boot [10] [(10, exit_wait_status 1)] in
  let run := Toy.parse_command (Toy.plain "false") w in
  exists x pid,
    fst run = Returned x /\ 0 <= x <= 255 /\ w_env (snd run) = w_env w /\
    ((pid < 0 /\ x = 1 /\
      w_log (snd run) = w_log w ++ [EvFork pid; EvPrintf MSG_FORK]) \/
     (0 < pid /\ x = 1 /\
      w_log (snd run) = w_log w ++ [EvFork pid; EvWaitpid pid 0 None;
                                    EvPrintf MSG_WAITPID]) \/
     (exists st, 0 < pid /\ WIFEXITED st = true /\ x = WEXITSTATUS st /\
        w_log (snd run) = w_log w ++ [EvFork pid; EvWaitpid pid 0 (Some st)]) \/
     (exists st, 0 < pid /\ WIFEXITED st = false /\ x = 1 /\
        w_log (snd run) = w_log w ++ [EvFork pid; EvWaitpid pid 0 (Some st);
                                      EvPrintf MSG_ABNORMAL])).
Proof.
  exact (external_parent_status (P := Toy.host)
           (SimpleCommand "false" None None None None 0) None None
           (Toy.boot [10] [(10, exit_wait_status 1)]) _ _
           eq_refl ltac:(vm_compute; discriminate) eq_refl).
Defined.

(** An instance: [nosuch], whose child 10 left with [exit(-1)]; the status
    is 255. *)
Lemma external_status_of_exit_witness :
  fst (Toy.parse_command (Toy.plain "nosuch")
         (Toy.boot [10] [(10, exit_wait_status (-1))]))
  = Returned 255.
Proof.
  exact (external_status_of_exit (P := Toy.host)
           (SimpleCommand "nosuch" None None None None 0) None None
           (Toy.boot [10] [(10, exit_wait_status (-1))]) 10 _ _ (-1)
           eq_refl eq_refl eq_refl eq_refl).
Defined.

(** An instance: the child of [echo < in.txt > o.txt 2> e.txt]. *)
Lemma exec_after_redirections_witness :
  let s := SimpleCommand "echo" None (Some "in.txt") (Some "o.txt")
             (Some "e.txt") 0 in
  let w := Toy.boot [0] [] in
  let run := Toy.parse_command
               (Some (Command OP_NONE (Some s) None None)) w in
  exists delta,
    w_log (snd run) = w_log w ++ delta /\
    forall f a b, In (EvExecvp f a b) delta ->
      f = "echo" /\
      a = ["echo"] /\
      existsb failed_open delta = false /\
      existsb failed_dup2 delta = false /\
      (forall i, in_ s = Some i ->
         exists fd,
           In (EvOpen i O_RDONLY None fd) delta /\
           In (EvDup2 fd STDIN_FILENO STDIN_FILENO) delta) /\
      (forall o, out s = Some o ->
         exists fd,
           In (EvOpen o (write_flags (P := Toy.host) s) (Some MODE_0644) fd)
             delta /\
           In (EvDup2 fd STDOUT_FILENO STDOUT_FILENO) delta) /\
      (forall e, err s = Some e ->
         exists fd, In (EvDup2 fd STDERR_FILENO STDERR_FILENO) delta).
Proof.
  exact (exec_after_redirections (P := Toy.host)
           (SimpleCommand "echo" None (Some "in.txt") (Some "o.txt")
              (Some "e.txt") 0)
           None None (Toy.boot [0] []) _ _ eq_refl).
Defined.

(** An instance: [exit & quit], in the left child and in the right child:
    each ends with [exit] of the sentinel. *)
Lemma parallel_branches_exit_witness :
  let both := Toy.node OP_PARALLEL (Toy.plain "exit") (Toy.plain "quit") in
  Toy.parse_command both (Toy.boot [0] [])
  = (Exited Toy.SHELL_EXIT,
     World [] (w_os (Toy.boot [] []))
       [EvFork 0; EvExit Toy.SHELL_EXIT]) /\
  Toy.parse_command both (Toy.boot [10; 0] [])
  = (Exited Toy.SHELL_EXIT,
     World [] (w_os (Toy.boot [] []))
       [EvFork 10; EvFork 0; EvExit Toy.SHELL_EXIT]).
Proof.
  split.
  - exact (proj2 (proj1 (parallel_branches_exit (P := Toy.host) None
                           (Toy.plain "exit") (Toy.plain "quit")
                           (Toy.boot [0] []) 0 _ eq_refl
                           ltac:(discriminate))
                    eq_refl) _ _ eq_refl).
  - exact (proj2 (proj2 (parallel_branches_exit (P := Toy.host) None
                           (Toy.plain "exit") (Toy.plain "quit")
                           (Toy.boot [10; 0] []) 10 _ eq_refl
                           ltac:(discriminate))
                    eq_refl _ eq_refl) _ _ eq_refl).
Defined.

(** An instance: [cd | exit], in the left child and in the right child. *)
Lemma pipe_branches_exit_witness :
  let pipeline := Toy.node OP_PIPE (Toy.plain "cd") (Toy.plain "exit") in
  (exists w2,
      Toy.parse_command pipeline (Toy.boot [0] [])
      = (Exited 0, emit (EvExit 0) w2) /\
      w_log w2
      = [EvPipe (Some (3, 4)); EvFork 0; EvClose 3; EvDup2 4 1 1]) /\
  (exists w3,
      Toy.parse_command pipeline (Toy.boot [10; 0] [])
      = (Exited Toy.SHELL_EXIT, emit (EvExit Toy.SHELL_EXIT) w3) /\
      w_log w3
      = [EvPipe (Some (3, 4)); EvFork 10; EvFork 0; EvClose 4;
         EvDup2 3 0 0]).
Proof.
  split.
  - eexists. split.
    + exact (proj2 (proj1 (pipe_branches_exit (P := Toy.host) None
                             (Toy.plain "cd") (Toy.plain "exit")
                             (Toy.boot [0] []) 3 4 _ 0 _ eq_refl eq_refl
                             ltac:(discriminate))
                      eq_refl _ eq_refl) _ _ eq_refl).
    + reflexivity.
  - eexists. split.
    + exact (proj2 (proj2 (pipe_branches_exit (P := Toy.host) None
                             (Toy.plain "cd") (Toy.plain "exit")
                             (Toy.boot [10; 0] []) 3 4 _ 10 _ eq_refl eq_refl
                             ltac:(discriminate))
                      eq_refl _ _ eq_refl eq_refl) _ _ eq_refl).
    + reflexivity.
Defined.

(** An instance: the child of [nosuch], which ends with [exit(-1)]. *)
Lemma shell_process_survives_witness :
  let w := Toy.boot [0] [] in
  let run := Toy.parse_command (Toy.plain "nosuch") w in
  fst run = Exited (-1) /\
  exists delta,
    w_log (snd run) = w_log w ++ delta /\
    existsb is_child_fork delta = true.
Proof.
  split; [reflexivity|].
  destruct (shell_process_survives (P := Toy.host) (Toy.plain "nosuch")
              (Toy.boot [0] []) _ _ eq_refl) as (delta & Hd & Hc).
  exists delta. split; [exact Hd|].
  apply Hc; [reflexivity|]. left. exists (-1). reflexivity.
Defined.

(** An instance: [A=1=2] binds [A] to [1]. *)
Lemma assignment_binds_witness :
  let w := Toy.boot [] [] in
  exists e',
    Toy.parse_command (Toy.plain "A=1=2") w
    = (Returned 0, World e' (w_os w) (w_log w)) /\
    getenv "A" e' = Some "1" /\
    (forall m, m <> "A" -> getenv m e' = getenv m (w_env w)).
Proof.
  exact (assignment_binds (P := Toy.host)
           (SimpleCommand "A=1=2" None None None None 0) None None
           (Toy.boot [] []) "A" "1" "=2"
           ltac:(discriminate) ltac:(discriminate) eq_refl eq_refl
           (or_intror (ex_intro _ "2" eq_refl)) eq_refl).
Defined.

(** An instance: [cd /tmp < a > b 2> c]. *)
Lemma cd_closes_what_it_opens_witness :
  let s := SimpleCommand "cd" (Some "/tmp") (Some "a") (Some "b") (Some "c")
             0 in
  let w := Toy.boot [] [] in
  let run := Toy.parse_command
               (Some (Command OP_NONE (Some s) None None)) w in
  exists delta,
    w_log (snd run) = w_log w ++ delta /\
    opened_fds delta = closed_fds delta /\
    existsb starts_process delta = false /\
    w_env (snd run) = w_env w /\
    (fst run = Returned 0 \/ fst run = Returned 1 \/
     (fst run = Undefined /\
      exists d path,
        params s = Some d /\
        In (EvChdir d (-1)) delta /\
        In (EvGetcwd (Some path)) delta /\
        ~ fits path d)).
Proof.
  exact (cd_closes_what_it_opens (P := Toy.host)
           (SimpleCommand "cd" (Some "/tmp") (Some "a") (Some "b") (Some "c")
              0)
           None None (Toy.boot [] []) _ _ eq_refl eq_refl).
Defined.

(** An instance: [echo > o.txt | true] in the process that evaluates the
    node; the redirection and the pipe ends are wired in the children. *)
Lemma streams_rewired_in_children_only_witness :
  let pipeline :=
    Toy.node OP_PIPE (Toy.simple "echo" None None (Some "o.txt") None 0)
      (Toy.plain "true") in
  let w := Toy.boot [10; 11] [(10, 0); (11, 0)] in
  exists delta,
    w_log (snd (Toy.parse_command pipeline w)) = w_log w ++ delta /\
    existsb rewires delta = false.
Proof.
  destruct (streams_rewired_in_children_only (P := Toy.host)
              (Toy.node OP_PIPE
                 (Toy.simple "echo" None None (Some "o.txt") None 0)
                 (Toy.plain "true"))
              (Toy.boot [10; 11] [(10, 0); (11, 0)]) _ _ eq_refl)
    as (delta & Hd & Hc).
  exists delta. split; [exact Hd|]. apply Hc. reflexivity.
Defined.

(** An instance: [true | true] where the second fork fails. *)
Lemma pipe_fork_failure_witness :
  let pipeline := Toy.node OP_PIPE (Toy.plain "true") (Toy.plain "true") in
  let w := Toy.boot [10] [] in
  fst (Toy.parse_command pipeline w) = Returned 1 /\
  exists delta,
    w_log (snd (Toy.parse_command pipeline w)) = w_log w ++ delta /\
    (exists rd wr, In (EvPipe (Some (rd, wr))) delta) /\
    existsb is_close delta = false /\
    existsb is_waitpid delta = false.
Proof.
  split; [reflexivity|].
  destruct (pipe_fork_failure (P := Toy.host) None (Toy.plain "true")
              (Toy.plain "true") (Toy.boot [10] []) 1 _ eq_refl)
    as (delta & Hd & Hc).
  exists delta. split; [exact Hd|].
  apply Hc. rewrite app_nil_l in Hd. rewrite <- Hd. reflexivity.
Defined.

(** Two instances: [=a=] has one field, [a==b] has two. *)
Lemma assignment_fields_witness :
  let w := Toy.boot [] [] in
  Toy.parse_command (Toy.plain "=a=") w = (Returned 1, w) /\
  Toy.parse_command (Toy.plain "a==b") w
  = (Returned 0, World [("a", "b")] (w_os w) (w_log w)).
Proof.
  split.
  - exact (assignment_fields (P := Toy.host)
             (SimpleCommand "=a=" None None None None 0) None None
             (Toy.boot [] []) ltac:(vm_compute; discriminate)).
  - exact (assignment_fields (P := Toy.host)
             (SimpleCommand "a==b" None None None None 0) None None
             (Toy.boot [] []) ltac:(vm_compute; discriminate)).
Defined.
